(** * m3u8 relay: a shallow embedding of [m3u8-proxy-implementation.js]

    The two Express handlers ([/m3u8-proxy] and [/ts-proxy]) are embedded as
    pure functions over explicit requests, upstream responses and outbound
    responses.  JavaScript strings are sequences of UTF-16 code units; the
    platform functions the handlers call ([decodeURIComponent],
    [encodeURIComponent], [String.prototype.trim], [startsWith],
    [lastIndexOf], [substring], [String.prototype.replace] with the
    segment pattern) are embedded after ECMA-262. *)

From Stdlib Require Import ZArith List Bool Lia String Ascii DecimalString.
From Stdlib Require DecimalPos.
Import ListNotations.
Open Scope Z_scope.

(** ** JavaScript strings *)

(** A string value is a finite sequence of 16-bit code units. *)
Definition jsstring := list Z.

(** Literals of the source are ASCII; [lit] reads one off a Rocq string. *)
Definition lit (s : string) : jsstring :=
  map (fun a => Z.of_N (N_of_ascii a)) (list_ascii_of_string s).

Fixpoint jsstring_eqb (a b : jsstring) : bool :=
  match a, b with
  | [], [] => true
  | x :: a', y :: b' => (x =? y) && jsstring_eqb a' b'
  | _, _ => false
  end.

(** [s.startsWith(p)] *)
Fixpoint startsWith (s p : jsstring) {struct p} : bool :=
  match p with
  | [] => true
  | y :: p' =>
      match s with
      | [] => false
      | x :: s' => (x =? y) && startsWith s' p'
      end
  end.

(** [s.includes(p)]: [p] occurs somewhere in [s]. *)
Fixpoint includes (s p : jsstring) : bool :=
  startsWith s p ||
  match s with
  | [] => false
  | _ :: s' => includes s' p
  end.

(** [s.lastIndexOf(c)] for a one-unit search string: the greatest index
    holding [c], or [-1]. *)
Fixpoint lastIndexOf_from (i : Z) (c : Z) (s : jsstring) : Z :=
  match s with
  | [] => -1
  | x :: s' =>
      let r := lastIndexOf_from (i + 1) c s' in
      if 0 <=? r then r else if x =? c then i else -1
  end.

Definition lastIndexOf (s : jsstring) (c : Z) : Z := lastIndexOf_from 0 c s.

(** [s.substring(0, finish)]: a negative [finish] is clamped to [0], one
    past the length to the length. *)
Definition substring0 (s : jsstring) (finish : Z) : jsstring :=
  firstn (Z.to_nat finish) s.

(** ECMA-262 LineTerminator: LF, CR, LS, PS. *)
Definition isLineTerminator (c : Z) : bool :=
  (c =? 10) || (c =? 13) || (c =? 8232) || (c =? 8233).

(** ECMA-262 WhiteSpace (TAB, VT, FF, SP, NBSP, ZWNBSP and category Zs)
    together with LineTerminator: what [trim] strips. *)
Definition isTrimmable (c : Z) : bool :=
  (c =? 9) || (c =? 11) || (c =? 12) || (c =? 32) || (c =? 160) ||
  (c =? 5760) || ((8192 <=? c) && (c <=? 8202)) ||
  (c =? 8239) || (c =? 8287) || (c =? 12288) || (c =? 65279) ||
  isLineTerminator c.

Fixpoint trimStart (s : jsstring) : jsstring :=
  match s with
  | [] => []
  | c :: s' => if isTrimmable c then trimStart s' else s
  end.

Definition trimEnd (s : jsstring) : jsstring := rev (trimStart (rev s)).

(** [s.trim()] *)
Definition trim (s : jsstring) : jsstring := trimEnd (trimStart s).

(** [`${n}`] for an integer [n]: its decimal numeral. *)
Definition Number_toString (n : Z) : jsstring :=
  lit (NilZero.string_of_int (Z.to_int n)).

(** ** Exceptions *)

Inductive exn : Type :=
| URIError (message : jsstring)
| TypeError (message : jsstring)
| SyntaxError (message : jsstring)
| Error (message : jsstring).

Definition message (e : exn) : jsstring :=
  match e with
  | URIError m | TypeError m | SyntaxError m | Error m => m
  end.

(** A computation either completes with a value or throws. *)
Inductive completion (A : Type) : Type :=
| Ok (a : A)
| Throw (e : exn).
Arguments Ok {A} a.
Arguments Throw {A} e.

Definition bind {A B} (c : completion A) (k : A -> completion B) : completion B :=
  match c with
  | Ok a => k a
  | Throw e => Throw e
  end.

Notation "x <- c ;; k" := (bind c (fun x => k))
  (at level 61, c at next level, right associativity).

(** ** URI encoding and decoding (ECMA-262, 19.2.6) *)

Definition isAlnum (c : Z) : bool :=
  ((48 <=? c) && (c <=? 57)) || ((65 <=? c) && (c <=? 90)) ||
  ((97 <=? c) && (c <=? 122)).

(** The set [encodeURIComponent] leaves alone: alphanumerics and
    [- _ . ! ~ * ' ( )]. *)
Definition uriUnescaped (c : Z) : bool :=
  isAlnum c || existsb (Z.eqb c) [45; 95; 46; 33; 126; 42; 39; 40; 41].

Definition isLeadingSurrogate (c : Z) : bool := (55296 <=? c) && (c <=? 56319).
Definition isTrailingSurrogate (c : Z) : bool := (56320 <=? c) && (c <=? 57343).

Definition UTF16SurrogatePairToCodePoint (lead trail : Z) : Z :=
  (lead - 55296) * 1024 + (trail - 56320) + 65536.

Definition UTF16EncodeCodePoint (cp : Z) : jsstring :=
  if cp <? 65536 then [cp]
  else [55296 + (cp - 65536) / 1024; 56320 + (cp - 65536) mod 1024].

(** The UTF-8 octets of a code point; shifts and masks written as
    division and remainder by powers of two. *)
Definition utf8_octets (cp : Z) : list Z :=
  if cp <? 128 then [cp]
  else if cp <? 2048 then [192 + cp / 64; 128 + cp mod 64]
  else if cp <? 65536 then
    [224 + cp / 4096; 128 + (cp / 64) mod 64; 128 + cp mod 64]
  else
    [240 + cp / 262144; 128 + (cp / 4096) mod 64;
     128 + (cp / 64) mod 64; 128 + cp mod 64].

(** Upper-case hexadecimal digit of a nibble. *)
Definition hexDigit (n : Z) : Z := if n <? 10 then 48 + n else 55 + n.

(** ["%XY"] for one octet. *)
Definition escape_octet (b : Z) : jsstring :=
  [37; hexDigit (b / 16); hexDigit (b mod 16)].

Definition uriMalformed : exn := URIError (lit "URI malformed").

(** [Encode(string, unescapedSet)] with the component set. *)
Fixpoint encodeURIComponent (s : jsstring) : completion jsstring :=
  match s with
  | [] => Ok []
  | c :: s' =>
      if uriUnescaped c then
        r <- encodeURIComponent s';; Ok (c :: r)
      else if isLeadingSurrogate c then
        match s' with
        | d :: s'' =>
            if isTrailingSurrogate d then
              r <- encodeURIComponent s'';;
              Ok (flat_map escape_octet
                    (utf8_octets (UTF16SurrogatePairToCodePoint c d)) ++ r)
            else Throw uriMalformed
        | [] => Throw uriMalformed
        end
      else if isTrailingSurrogate c then Throw uriMalformed
      else
        r <- encodeURIComponent s';;
        Ok (flat_map escape_octet (utf8_octets c) ++ r)
  end.

Definition hexValue (c : Z) : option Z :=
  if (48 <=? c) && (c <=? 57) then Some (c - 48)
  else if (65 <=? c) && (c <=? 70) then Some (c - 55)
  else if (97 <=? c) && (c <=? 102) then Some (c - 87)
  else None.

Definition ParseHexOctet (h l : Z) : option Z :=
  match hexValue h, hexValue l with
  | Some a, Some b => Some (16 * a + b)
  | _, _ => None
  end.

(** Number of leading 1 bits of an octet (5 stands for five or more). *)
Definition leadingOnes (b : Z) : nat :=
  if b <? 128 then 0
  else if b <? 192 then 1
  else if b <? 224 then 2
  else if b <? 240 then 3
  else if b <? 248 then 4
  else 5.

(** Reads [n] further escapes ["%XY"]; the octets and what follows. *)
Fixpoint continuation (n : nat) (s : jsstring) : option (list Z * jsstring) :=
  match n with
  | O => Some ([], s)
  | S n' =>
      match s with
      | p :: h :: l :: s' =>
          if p =? 37 then
            match ParseHexOctet h l with
            | Some b =>
                match continuation n' s' with
                | Some (bs, r) => Some (b :: bs, r)
                | None => None
                end
            | None => None
            end
          else None
      | _ => None
      end
  end.

Definition isContinuationOctet (b : Z) : bool := (128 <=? b) && (b <? 192).

(** The code point of a multi-octet sequence, when the sequence is a valid
    UTF-8 encoding: continuation octets in range, shortest form, no
    surrogate, at most U+10FFFF. *)
Definition utf8_code_point (octets : list Z) : option Z :=
  match octets with
  | [b0; b1] =>
      let v := (b0 - 192) * 64 + (b1 - 128) in
      if isContinuationOctet b1 && (128 <=? v) then Some v else None
  | [b0; b1; b2] =>
      let v := (b0 - 224) * 4096 + (b1 - 128) * 64 + (b2 - 128) in
      if isContinuationOctet b1 && isContinuationOctet b2 && (2048 <=? v)
         && negb ((55296 <=? v) && (v <=? 57343))
      then Some v else None
  | [b0; b1; b2; b3] =>
      let v := (b0 - 240) * 262144 + (b1 - 128) * 4096
               + (b2 - 128) * 64 + (b3 - 128) in
      if isContinuationOctet b1 && isContinuationOctet b2
         && isContinuationOctet b3 && (65536 <=? v) && (v <=? 1114111)
      then Some v else None
  | _ => None
  end.

(** [Decode(string, preserveEscapeSet)] with the empty set.  The loop of
    the standard advances by at least one code unit per round; [fuel]
    bounds the rounds. *)
Fixpoint Decode (fuel : nat) (s : jsstring) : completion jsstring :=
  match s with
  | [] => Ok []
  | c :: s1 =>
      match fuel with
      | O => Throw uriMalformed
      | S fuel' =>
          if c =? 37 then
            match s1 with
            | h :: l :: s3 =>
                match ParseHexOctet h l with
                | None => Throw uriMalformed
                | Some b =>
                    let n := leadingOnes b in
                    if (n =? 0)%nat then r <- Decode fuel' s3;; Ok (b :: r)
                    else if (n =? 1)%nat || (4 <? n)%nat then Throw uriMalformed
                    else
                      match continuation (n - 1) s3 with
                      | None => Throw uriMalformed
                      | Some (bs, s') =>
                          match utf8_code_point (b :: bs) with
                          | None => Throw uriMalformed
                          | Some v =>
                              r <- Decode fuel' s';;
                              Ok (UTF16EncodeCodePoint v ++ r)
                          end
                      end
                end
            | _ => Throw uriMalformed
            end
          else r <- Decode fuel' s1;; Ok (c :: r)
      end
  end.

Definition decodeURIComponent (s : jsstring) : completion jsstring :=
  Decode (List.length s) s.

(** A string without unpaired surrogates whose units are 16-bit: what a
    text decoder produces. *)
Fixpoint well_formed (s : jsstring) : bool :=
  match s with
  | [] => true
  | c :: s' =>
      (0 <=? c) && (c <? 65536) &&
      if isLeadingSurrogate c then
        match s' with
        | d :: s'' => isTrailingSurrogate d && well_formed s''
        | [] => false
        end
      else negb (isTrailingSurrogate c) && well_formed s'
  end.

(** ** Values, objects and JSON text *)

(** Values [JSON.parse] can return, and [undefined]; a number is carried by
    its numeral, since the handlers only copy it. *)
Unset Elimination Schemes.
Inductive jsvalue : Type :=
| VUndefined
| VNull
| VBool (b : bool)
| VNumber (numeral : jsstring)
| VString (s : jsstring)
| VArray (items : list jsvalue)
| VObject (props : list (jsstring * jsvalue)).
Set Elimination Schemes.

(** An object literal: its own properties in insertion order. *)
Definition object := list (jsstring * jsvalue).

(** [o[k] = v]: an existing property keeps its place. *)
Fixpoint set_property (o : object) (k : jsstring) (v : jsvalue) : object :=
  match o with
  | [] => [(k, v)]
  | (k', v') :: o' =>
      if jsstring_eqb k' k then (k', v) :: o'
      else (k', v') :: set_property o' k v
  end.

Fixpoint indexed {A} (i : Z) (f : A -> jsvalue) (l : list A) : object :=
  match l with
  | [] => []
  | x :: l' => (Number_toString i, f x) :: indexed (i + 1) f l'
  end.

(** The own enumerable properties a spread [...v] copies: those of an
    object, the indexed elements of an array or string, none of the rest. *)
Definition ownProperties (v : jsvalue) : object :=
  match v with
  | VObject props => props
  | VArray items => indexed 0 (fun x => x) items
  | VString s => indexed 0 (fun c => VString [c]) s
  | _ => []
  end.

(** [{ ...o, ...v }] *)
Definition spread (o : object) (v : jsvalue) : object :=
  fold_left (fun acc kv => set_property acc (fst kv) (snd kv))
            (ownProperties v) o.

Definition hexDigitLower (n : Z) : Z := if n <? 10 then 48 + n else 87 + n.

Definition unicodeEscape (c : Z) : jsstring :=
  [92; 117; hexDigitLower (c / 4096); hexDigitLower ((c / 256) mod 16);
   hexDigitLower ((c / 16) mod 16); hexDigitLower (c mod 16)].

(** The body of [QuoteJSONString]. *)
Fixpoint quoteChars (s : jsstring) : jsstring :=
  match s with
  | [] => []
  | c :: s' =>
      if c =? 8 then [92; 98] ++ quoteChars s'
      else if c =? 9 then [92; 116] ++ quoteChars s'
      else if c =? 10 then [92; 110] ++ quoteChars s'
      else if c =? 12 then [92; 102] ++ quoteChars s'
      else if c =? 13 then [92; 114] ++ quoteChars s'
      else if c =? 34 then [92; 34] ++ quoteChars s'
      else if c =? 92 then [92; 92] ++ quoteChars s'
      else if c <? 32 then unicodeEscape c ++ quoteChars s'
      else if isLeadingSurrogate c then
        match s' with
        | d :: s'' =>
            if isTrailingSurrogate d then c :: d :: quoteChars s''
            else unicodeEscape c ++ quoteChars s'
        | [] => unicodeEscape c
        end
      else if isTrailingSurrogate c then unicodeEscape c ++ quoteChars s'
      else c :: quoteChars s'
  end.

Definition QuoteJSONString (s : jsstring) : jsstring :=
  [34] ++ quoteChars s ++ [34].

Fixpoint joinMembers (ms : list jsstring) : jsstring :=
  match ms with
  | [] => []
  | [m] => m
  | m :: ms' => m ++ [44] ++ joinMembers ms'
  end.

(** [JSON.stringify] of an object whose property values are strings. *)
Definition JSON_stringify (o : list (jsstring * jsstring)) : jsstring :=
  [123] ++
  joinMembers
    (map (fun kv => QuoteJSONString (fst kv) ++ [58] ++ QuoteJSONString (snd kv)) o)
  ++ [125].

(** ** Requests, upstream responses, outbound responses *)

Inductive protocol : Type := Http | Https.

(** [req.protocol] *)
Definition protocol_name (p : protocol) : jsstring :=
  match p with
  | Http => lit "http"
  | Https => lit "https"
  end.

(** What a handler reads off the inbound request.  A query parameter is
    the string Express has parsed for it, or [None] when the query string
    does not have it. *)
Record request : Type := {
  query_url : option jsstring;      (* req.query.url *)
  query_headers : option jsstring;  (* req.query.headers *)
  req_protocol : protocol;          (* req.protocol *)
  req_host : option jsstring;       (* req.get('host') *)
  req_range : option jsstring       (* req.headers.range *)
}.

(** Truthiness of a string or [undefined]. *)
Definition truthy (v : option jsstring) : bool :=
  match v with
  | Some (_ :: _) => true
  | _ => false
  end.

(** [String(v)] and [`${v}`] of a string or a missing value, whose name is
    given. *)
Definition stringOr (missing : string) (v : option jsstring) : jsstring :=
  match v with
  | Some s => s
  | None => lit missing
  end.

(** The response of the upstream server as node-fetch presents it. *)
Record upstream : Type := {
  up_status : Z;                               (* response.status *)
  up_statusText : jsstring;                    (* response.statusText *)
  up_header : jsstring -> option jsstring;     (* response.headers.get *)
  up_text : completion jsstring;               (* await response.text() *)
  up_body : list Z                             (* octets of response.body *)
}.

(** [response.ok] *)
Definition up_ok (r : upstream) : bool :=
  (200 <=? up_status r) && (up_status r <? 300).

(** How [await fetch(...)] ends. *)
Inductive fetched : Type :=
| Resolved (r : upstream)
| Rejected (e : exn).

Definition await (f : fetched) : completion upstream :=
  match f with
  | Resolved r => Ok r
  | Rejected e => Throw e
  end.

Record fetch_options : Type := {
  fo_headers : object;
  fo_timeout : Z
}.

Inductive body : Type :=
| Json (o : list (jsstring * jsstring))  (* res.json(o) *)
| Text (s : jsstring)                    (* res.send(s) *)
| Piped (octets : list Z).               (* upstream.body.pipe(res) *)

(** The octets or text put on the wire. *)
Definition body_text (b : body) : jsstring :=
  match b with
  | Json o => JSON_stringify o
  | Text s => s
  | Piped octets => octets
  end.

(** The outbound response as the handler makes it: the status it sets
    (200 when it sets none), the fields as [res.set] stores them, the body
    it sends or pipes. *)
Record response : Type := {
  status : Z;
  fields : list (jsstring * jsstring);
  payload : body
}.

Fixpoint set_field (fs : list (jsstring * jsstring)) (k v : jsstring)
  : list (jsstring * jsstring) :=
  match fs with
  | [] => [(k, v)]
  | (k', v') :: fs' =>
      if jsstring_eqb k' k then (k', v) :: fs'
      else (k', v') :: set_field fs' k v
  end.

Fixpoint get_field (fs : list (jsstring * jsstring)) (k : jsstring)
  : option jsstring :=
  match fs with
  | [] => None
  | (k', v) :: fs' => if jsstring_eqb k' k then Some v else get_field fs' k
  end.

(** A handler either responds at once or first calls [fetch(url, opts)]
    and responds from how the call ends. *)
Inductive handling : Type :=
| Respond (r : response)
| Fetch (url : jsstring) (opts : fetch_options) (k : fetched -> response).

(** [res.status(code).json(o)] *)
Definition json_response (code : Z) (o : list (jsstring * jsstring)) : response :=
  {| status := code; fields := []; payload := Json o |}.

(** The [catch (error)] clause of a handler. *)
Definition catch_all (summary : jsstring) (c : completion response) : response :=
  match c with
  | Ok r => r
  | Throw e =>
      json_response 500 [(lit "error", summary); (lit "details", message e)]
  end.

Definition missing_url : response :=
  json_response 400 [(lit "error", lit "URL parameter is required")].

(** [throw new Error(`HTTP ${response.status}: ${response.statusText}`)] *)
Definition http_error (r : upstream) : exn :=
  Error (lit "HTTP " ++ Number_toString (up_status r) ++ lit ": "
         ++ up_statusText r).

(** ** The manifest rewrite

    [content.replace(pattern, callback)], where the pattern of line 79 reads:
    start of line; not followed by [#]; a group made of one or more units,
    the text [.ts], any number of units; end of line; flags [g] and [m].
    With the [m] flag the start and the end of a line are where the
    LineTerminator units cut the text, and the dot stops at those units: a
    match is a whole line, one that does not begin with [#] and has [.ts]
    after at least one unit.  With the [g] flag every such line is replaced,
    top to bottom. *)

(** The lines of a text, and the units that end them. *)
Fixpoint lines (s : jsstring) : list jsstring :=
  match s with
  | [] => [[]]
  | c :: s' =>
      if isLineTerminator c then [] :: lines s'
      else
        match lines s' with
        | l :: ls => (c :: l) :: ls
        | [] => [[c]]
        end
  end.

Definition terminators (s : jsstring) : list Z := filter isLineTerminator s.

Fixpoint unlines (ls : list jsstring) (ts : list Z) : jsstring :=
  match ls, ts with
  | l :: ls', t :: ts' => l ++ t :: unlines ls' ts'
  | l :: _, [] => l
  | [], _ => []
  end.

(** A line the pattern matches. *)
Definition segment_pattern (l : jsstring) : bool :=
  negb (startsWith l (lit "#")) &&
  match l with
  | [] => false
  | _ :: l' => includes l' (lit ".ts")
  end.

Fixpoint mapM {A B} (f : A -> completion B) (l : list A) : completion (list B) :=
  match l with
  | [] => Ok []
  | x :: l' => y <- f x;; ys <- mapM f l';; Ok (y :: ys)
  end.

Definition replace_line (callback : jsstring -> completion jsstring)
  (l : jsstring) : completion jsstring :=
  if segment_pattern l then callback l else Ok l.

Definition replace_segments (callback : jsstring -> completion jsstring)
  (content : jsstring) : completion jsstring :=
  outs <- mapM (replace_line callback) (lines content);;
  Ok (unlines outs (terminators content)).

(** Assignment to a [const] binding: the right-hand side has been
    evaluated, the store throws. *)
Definition assign_const {A} (v : A) : completion A :=
  Throw (TypeError (lit "Assignment to constant variable.")).

(** [decodedUrl.substring(0, decodedUrl.lastIndexOf('/') + 1)] *)
Definition base_of (decodedUrl : jsstring) : jsstring :=
  substring0 decodedUrl (lastIndexOf decodedUrl 47 + 1).

(** Lines 80 to 85: the reference of a line, made absolute. *)
Definition resolve (baseUrl tsFile : jsstring) : jsstring :=
  let tsUrl := trim tsFile in
  if negb (startsWith tsUrl (lit "http")) then baseUrl ++ tsUrl else tsUrl.

(** [`${req.protocol}://${req.get('host')}`] *)
Definition origin (req : request) : jsstring :=
  protocol_name (req_protocol req) ++ lit "://"
  ++ stringOr "undefined" (req_host req).

(** The replacer function of the rewrite (lines 79 to 94). *)
Definition rewrite_callback (req : request) (baseUrl tsFile : jsstring)
  : completion jsstring :=
  let tsUrl := resolve baseUrl tsFile in
  e <- encodeURIComponent tsUrl;;
  let proxyUrl := lit "/ts-proxy?url=" ++ e in
  proxyUrl <-
    (if truthy (query_headers req) then
       h <- encodeURIComponent (stringOr "undefined" (query_headers req));;
       assign_const (proxyUrl ++ lit "&headers=" ++ h)
     else Ok proxyUrl);;
  Ok (origin req ++ proxyUrl).

Definition rewrite_manifest (req : request) (baseUrl content : jsstring)
  : completion jsstring :=
  replace_segments (rewrite_callback req baseUrl) content.

(** ** The handlers *)

Definition userAgent : jsstring :=
  lit "Mozilla/5.0 (Windows NT 10.0; Win64; x64) AppleWebKit/537.36 (KHTML, like Gecko) Chrome/91.0.4472.124 Safari/537.36".

(** The literal part of [defaultHeaders] in [/m3u8-proxy]. *)
Definition manifest_defaults : object :=
  [(lit "User-Agent", VString userAgent);
   (lit "Accept", VString (lit "*/*"));
   (lit "Accept-Language", VString (lit "en-US,en;q=0.9"));
   (lit "Accept-Encoding", VString (lit "gzip, deflate, br"));
   (lit "Connection", VString (lit "keep-alive"));
   (lit "Upgrade-Insecure-Requests", VString (lit "1"))].

(** The literal part of [defaultHeaders] in [/ts-proxy]:
    [req.headers.range || undefined] under [Range]. *)
Definition segment_defaults (req : request) : object :=
  [(lit "User-Agent", VString userAgent);
   (lit "Accept", VString (lit "*/*"));
   (lit "Accept-Language", VString (lit "en-US,en;q=0.9"));
   (lit "Accept-Encoding", VString (lit "gzip, deflate, br"));
   (lit "Connection", VString (lit "keep-alive"));
   (lit "Range",
    if truthy (req_range req) then VString (stringOr "undefined" (req_range req))
    else VUndefined)].

Definition manifest_fields : list (jsstring * jsstring) :=
  [(lit "Content-Type", lit "application/vnd.apple.mpegurl");
   (lit "Access-Control-Allow-Origin", lit "*");
   (lit "Access-Control-Allow-Methods", lit "GET, POST, OPTIONS");
   (lit "Access-Control-Allow-Headers",
    lit "Content-Type, Authorization, Referer, User-Agent");
   (lit "Cache-Control", lit "no-cache")].

(** [a || b] on strings and [null]. *)
Definition orElse (a : option jsstring) (b : jsstring) : jsstring :=
  if truthy a then stringOr "null" a else b.

(** [res.set] of Express 4 on a [Content-Type]: a value in which the
    pattern [;], white space, [charset], white space, [=] is not found,
    and which begins with [text/], [application/javascript] or
    [application/json], is stored with [; charset=utf-8] after it. *)
Definition charsetAt (s : jsstring) : bool :=
  match s with
  | 59 :: s' =>
      let t := trimStart s' in
      startsWith t (lit "charset") && startsWith (trimStart (skipn 7 t)) (lit "=")
  | _ => false
  end.

Fixpoint hasCharset (s : jsstring) : bool :=
  charsetAt s ||
  match s with
  | [] => false
  | _ :: s' => hasCharset s'
  end.

Definition isTextual (v : jsstring) : bool :=
  startsWith v (lit "text/") || startsWith v (lit "application/javascript")
  || startsWith v (lit "application/json").

Definition setContentType (v : jsstring) : jsstring :=
  if hasCharset v then v
  else if isTextual v then v ++ lit "; charset=utf-8"
  else v.

(** The object given to [res.set] in [/ts-proxy], as [res.set] stores it:
    [String(value)] under each name, and under [Content-Type] that with
    the charset of a textual type. *)
Definition segment_fields (r : upstream) : list (jsstring * jsstring) :=
  [(lit "Content-Type",
    setContentType (orElse (up_header r (lit "content-type")) (lit "video/mp2t")));
   (lit "Content-Length", stringOr "null" (up_header r (lit "content-length")));
   (lit "Accept-Ranges", lit "bytes");
   (lit "Access-Control-Allow-Origin", lit "*");
   (lit "Access-Control-Allow-Methods", lit "GET, POST, OPTIONS");
   (lit "Access-Control-Allow-Headers",
    lit "Content-Type, Authorization, Referer, User-Agent, Range");
   (lit "Cache-Control", lit "public, max-age=3600")].

Section Handlers.

(** [JSON.parse] of the platform; it throws on text that is not JSON. *)
Variable JSON_parse : jsstring -> completion jsvalue.

(** Lines 40 to 48 and 126 to 134: [requestHeaders]. *)
Definition request_headers (req : request) : jsvalue :=
  if truthy (query_headers req) then
    match (d <- decodeURIComponent (stringOr "undefined" (query_headers req));;
           JSON_parse d) with
    | Ok v => v
    | Throw _ => VObject []
    end
  else VObject [].

(** What follows [await fetch] in [/m3u8-proxy], inside [try]. *)
Definition manifest_after_fetch (req : request) (decodedUrl : jsstring)
  (outcome : fetched) : completion response :=
  response <- await outcome;;
  if negb (up_ok response) then Throw (http_error response)
  else
    content <- up_text response;;
    let baseUrl := base_of decodedUrl in
    content <- rewrite_manifest req baseUrl content;;
    Ok {| status := 200; fields := manifest_fields; payload := Text content |}.

(** [app.get('/m3u8-proxy', ...)] *)
Definition m3u8_proxy (req : request) : handling :=
  if negb (truthy (query_url req)) then Respond missing_url
  else
    match decodeURIComponent (stringOr "undefined" (query_url req)) with
    | Throw e => Respond (catch_all (lit "Failed to fetch M3U8") (Throw e))
    | Ok decodedUrl =>
        let requestHeaders := request_headers req in
        let defaultHeaders := spread manifest_defaults requestHeaders in
        Fetch decodedUrl
          {| fo_headers := defaultHeaders; fo_timeout := 30000 |}
          (fun outcome =>
             catch_all (lit "Failed to fetch M3U8")
               (manifest_after_fetch req decodedUrl outcome))
    end.

(** What follows [await fetch] in [/ts-proxy], inside [try]. *)
Definition segment_after_fetch (outcome : fetched) : completion response :=
  response <- await outcome;;
  if negb (up_ok response) then Throw (http_error response)
  else
    let fs := segment_fields response in
    let ranged := truthy (up_header response (lit "content-range")) in
    Ok {| status := if ranged then 206 else 200;
          fields :=
            if ranged then
              set_field fs (lit "Content-Range")
                (stringOr "null" (up_header response (lit "content-range")))
            else fs;
          payload := Piped (up_body response) |}.

(** [app.get('/ts-proxy', ...)] *)
Definition ts_proxy (req : request) : handling :=
  if negb (truthy (query_url req)) then Respond missing_url
  else
    match decodeURIComponent (stringOr "undefined" (query_url req)) with
    | Throw e => Respond (catch_all (lit "Failed to fetch TS file") (Throw e))
    | Ok decodedUrl =>
        let requestHeaders := request_headers req in
        let defaultHeaders := spread (segment_defaults req) requestHeaders in
        Fetch decodedUrl
          {| fo_headers := defaultHeaders; fo_timeout := 30000 |}
          (fun outcome =>
             catch_all (lit "Failed to fetch TS file")
               (segment_after_fetch outcome))
    end.

End Handlers.

(** The response a handler ends with, when its [fetch] ends as [outcome]. *)
Definition respond_with (h : handling) (outcome : fetched) : response :=
  match h with
  | Respond r => r
  | Fetch _ _ k => k outcome
  end.

(** ** Sample inputs *)

(** A stand-in for [JSON.parse] in the examples: it reads the empty object
    and rejects every other text. *)
Definition sample_parse (s : jsstring) : completion jsvalue :=
  if jsstring_eqb s (lit "{}") then Ok (VObject [])
  else Throw (SyntaxError (lit "Unexpected token")).

Definition quote : jsstring := [34].
Definition newline : jsstring := [10].

Definition sample_request : request :=
  {| query_url := Some (lit "http%3A%2F%2Fcdn.example%2Fa%2Findex.m3u8");
     query_headers := None;
     req_protocol := Http;
     req_host := Some (lit "relay.example");
     req_range := None |}.

Definition with_headers (h : jsstring) (req : request) : request :=
  {| query_url := query_url req;
     query_headers := Some h;
     req_protocol := req_protocol req;
     req_host := req_host req;
     req_range := req_range req |}.

Definition with_url (u : option jsstring) (req : request) : request :=
  {| query_url := u;
     query_headers := query_headers req;
     req_protocol := req_protocol req;
     req_host := req_host req;
     req_range := req_range req |}.

Definition sample_playlist : jsstring :=
  lit "#EXTM3U" ++ newline ++
  lit "#EXTINF:10.0," ++ newline ++
  lit "seg0.ts" ++ newline ++
  lit "#EXTINF:10.0," ++ newline ++
  lit "http://other.cdn/seg1.ts".

Definition sample_rewritten : jsstring :=
  lit "#EXTM3U" ++ newline ++
  lit "#EXTINF:10.0," ++ newline ++
  lit "http://relay.example/ts-proxy?url=http%3A%2F%2Fcdn.example%2Fa%2Fseg0.ts" ++ newline ++
  lit "#EXTINF:10.0," ++ newline ++
  lit "http://relay.example/ts-proxy?url=http%3A%2F%2Fother.cdn%2Fseg1.ts".

(** An upstream answer with the given status line, header lookup and
    content. *)
Definition upstream_of (code : Z) (reason : jsstring)
  (header : jsstring -> option jsstring) (content : jsstring) : upstream :=
  {| up_status := code; up_statusText := reason; up_header := header;
     up_text := Ok content; up_body := content |}.

Definition no_headers : jsstring -> option jsstring := fun _ => None.

Definition one_header (name value : jsstring) : jsstring -> option jsstring :=
  fun k => if jsstring_eqb k name then Some value else None.

(** ** Classes of units and strings used in the statements *)

(** Surrogates, and the 16-bit range of a code unit. *)
Definition isSurrogate (c : Z) : bool :=
  isLeadingSurrogate c || isTrailingSurrogate c.

Definition isUnit (c : Z) : bool := (0 <=? c) && (c <? 65536).

(** An octet. *)
Definition isOctet (b : Z) : Prop := 0 <= b < 256.

(** A scalar value: a code point that is no surrogate. *)
Definition isScalar (cp : Z) : Prop :=
  0 <= cp < 1114112 /\ ~ (55296 <= cp <= 57343).

(** What the encoder writes is printable ASCII. *)
Definition isUriChar (c : Z) : Prop := 33 <= c <= 126.

(** A string free of line terminators: one line. *)
Definition plain_line (l : jsstring) : Prop :=
  Forall (fun c => isLineTerminator c = false) l.

(** What the store to a [const] binding throws. *)
Definition constAssignment : exn :=
  TypeError (lit "Assignment to constant variable.").

(** The test of C2 as stated, on a line: not a comment, and [.ts] in it. *)
Definition segment_line_as_stated (l : jsstring) : bool :=
  negb (startsWith l (lit "#")) && includes l (lit ".ts").

(** ** Definitions used in the further properties *)

(** [o[k]]: the value of an own property, if the object has it. *)
Fixpoint get_property (o : object) (k : jsstring) : option jsvalue :=
  match o with
  | [] => None
  | (k', v) :: o' => if jsstring_eqb k' k then Some v else get_property o' k
  end.

(** The property a spread copies under [k]: the last one of that name. *)
Definition copied_property (v : jsvalue) (k : jsstring) : option jsvalue :=
  get_property (rev (ownProperties v)) k.

Definition with_range (r : option jsstring) (req : request) : request :=
  {| query_url := query_url req;
     query_headers := query_headers req;
     req_protocol := req_protocol req;
     req_host := req_host req;
     req_range := r |}.

Definition without_headers (req : request) : request :=
  {| query_url := query_url req;
     query_headers := None;
     req_protocol := req_protocol req;
     req_host := req_host req;
     req_range := req_range req |}.

(** Two handlings no client and no upstream can tell apart: the same
    response at once, or the same [fetch] and the same response to each of
    its outcomes. *)
Definition same_handling (h h' : handling) : Prop :=
  match h, h' with
  | Respond r, Respond r' => r = r'
  | Fetch u o k, Fetch u' o' k' =>
      u = u' /\ o = o' /\ forall outcome, k outcome = k' outcome
  | _, _ => False
  end.

(** The delimiters of a query string and of a URL:
    [& = # ? / + %20] (the last one as the space itself). *)
Definition uriDelimiters : list Z := [38; 61; 35; 63; 47; 43; 32].

(** A [headers] value for the examples, the JSON text of an object with
    the one member [Accept], and a stand-in for [JSON.parse] that reads
    this text and rejects every other. *)
Definition override_text : jsstring :=
  lit "{" ++ quote ++ lit "Accept" ++ quote ++ lit ":"
  ++ quote ++ lit "video/*" ++ quote ++ lit "}".

Definition override_parse (s : jsstring) : completion jsvalue :=
  if jsstring_eqb s override_text
  then Ok (VObject [(lit "Accept", VString (lit "video/*"))])
  else Throw (SyntaxError (lit "Unexpected token")).

(** A manifest of playlists, with no segment line. *)
Definition master_playlist : jsstring :=
  lit "#EXTM3U" ++ newline ++
  lit "#EXT-X-STREAM-INF:BANDWIDTH=1280000" ++ newline ++
  lit "low/index.m3u8" ++ newline.

(** What [encodeURIComponent] writes: an unreserved unit, or the [%] of
    an escape. *)
Definition isEscaped (c : Z) : Prop := uriUnescaped c = true \/ c = 37.

(** The header lookup of an upstream answer to a range request for a text
    segment. *)
Definition ranged_text_headers : jsstring -> option jsstring :=
  fun k =>
    if jsstring_eqb k (lit "content-range") then Some (lit "bytes 0-999/5000")
    else if jsstring_eqb k (lit "content-type") then Some (lit "text/plain")
    else None.



(** ** The HTTP client *)










(** * Properties *)

(** ** Proof automation *)

Ltac unfold_classes :=
  unfold isSurrogate, isLeadingSurrogate, isTrailingSurrogate, isUnit,
    isTrimmable, isLineTerminator, uriUnescaped, isAlnum, isContinuationOctet,
    existsb in *.

Ltac bool_lia :=
  unfold_classes;
  repeat match goal with
    | H : _ && _ = true |- _ => apply andb_true_iff in H; destruct H
    | H : _ || _ = false |- _ => apply orb_false_iff in H; destruct H
    | H : negb _ = true |- _ => apply negb_true_iff in H
    | H : negb _ = false |- _ => apply negb_false_iff in H
    end;
  repeat match goal with
    | |- context [?a <=? ?b] => destruct (Z.leb_spec a b)
    | |- context [?a <? ?b] => destruct (Z.ltb_spec a b)
    | |- context [?a =? ?b] => destruct (Z.eqb_spec a b)
    | H : context [?a <=? ?b] |- _ => destruct (Z.leb_spec a b)
    | H : context [?a <? ?b] |- _ => destruct (Z.ltb_spec a b)
    | H : context [?a =? ?b] |- _ => destruct (Z.eqb_spec a b)
    end;
  cbn [andb orb negb] in *; try reflexivity; try discriminate; try lia.

Ltac div_mod_lia := Z.div_mod_to_equations; lia.

Ltac bool_hyps :=
  repeat match goal with
    | H : _ && _ = true |- _ => apply andb_true_iff in H; destruct H
    | H : _ || _ = true |- _ => apply orb_true_iff in H; destruct H
    | H : _ || _ = false |- _ => apply orb_false_iff in H; destruct H
    | H : _ && _ = false |- _ => apply andb_false_iff in H; destruct H
    | H : negb _ = true |- _ => apply negb_true_iff in H
    | H : negb _ = false |- _ => apply negb_false_iff in H
    | H : (_ <=? _) = true |- _ => apply Z.leb_le in H
    | H : (_ <=? _) = false |- _ => apply Z.leb_gt in H
    | H : (_ <? _) = true |- _ => apply Z.ltb_lt in H
    | H : (_ <? _) = false |- _ => apply Z.ltb_ge in H
    | H : (_ =? _) = true |- _ => apply Z.eqb_eq in H
    | H : (_ =? _) = false |- _ => apply Z.eqb_neq in H
    | H : false = true |- _ => discriminate H
    | H : true = false |- _ => discriminate H
    end.


(** ** Well-formed strings *)

(** Induction over a well-formed string: unit by unit, a surrogate pair
    at a time. *)
Lemma well_formed_ind (P : jsstring -> Prop) :
  P [] ->
  (forall c s, isUnit c = true -> isSurrogate c = false ->
               well_formed s = true -> P s -> P (c :: s)) ->
  (forall c d s, isLeadingSurrogate c = true -> isTrailingSurrogate d = true ->
                 well_formed s = true -> P s -> P (c :: d :: s)) ->
  forall s, well_formed s = true -> P s.
Proof.
  intros Hnil Hone Hpair s.
  remember (List.length s) as n eqn:Hn.
  revert s Hn.
  induction n as [n IH] using lt_wf_ind.
  intros [|c s] Hn Hwf; [exact Hnil|].
  simpl in Hwf. apply andb_true_iff in Hwf. destruct Hwf as [Hu Hwf].
  destruct (isLeadingSurrogate c) eqn:Hl.
  - destruct s as [|d s]; [discriminate|].
    apply andb_true_iff in Hwf. destruct Hwf as [Ht Hwf].
    apply Hpair; auto.
    apply (IH (List.length s)); simpl in *; auto; lia.
  - apply andb_true_iff in Hwf. destruct Hwf as [Ht Hwf].
    apply Hone; auto.
    + unfold isSurrogate. rewrite Hl. apply negb_true_iff in Ht. now rewrite Ht.
    + apply (IH (List.length s)); simpl in *; auto; lia.
Qed.

Lemma well_formed_cons c s :
  isUnit c = true -> isSurrogate c = false ->
  well_formed (c :: s) = well_formed s.
Proof.
  intros Hu Hs. simpl. fold (isUnit c). rewrite Hu.
  apply orb_false_iff in Hs. destruct Hs as [Hl Ht]. now rewrite Hl, Ht.
Qed.

Lemma well_formed_pair c d s :
  isLeadingSurrogate c = true -> isTrailingSurrogate d = true ->
  well_formed (c :: d :: s) = well_formed s.
Proof.
  intros Hl Ht. simpl. rewrite Hl, Ht.
  assert (isUnit c = true) as Hu by bool_lia.
  unfold isUnit in Hu. now rewrite Hu.
Qed.

Lemma well_formed_app a b :
  well_formed a = true -> well_formed b = true -> well_formed (a ++ b) = true.
Proof.
  intros Ha Hb. revert a Ha.
  apply (well_formed_ind (fun a => well_formed (a ++ b) = true)); simpl app.
  - exact Hb.
  - intros c s Hu Hs _ IH. now rewrite well_formed_cons.
  - intros c d s Hl Ht _ IH. now rewrite well_formed_pair.
Qed.

(** Cutting a well-formed string at a unit that is no surrogate leaves two
    well-formed strings. *)
Lemma well_formed_cut a c b :
  isSurrogate c = false ->
  well_formed (a ++ c :: b) = true ->
  well_formed a = true /\ well_formed (c :: b) = true.
Proof.
  intros Hc. remember (List.length a) as n eqn:Hn. revert a Hn.
  induction n as [n IH] using lt_wf_ind. intros [|x a] Hn H.
  - split; [reflexivity | exact H].
  - simpl app in H. destruct (isLeadingSurrogate x) eqn:Hl.
    + destruct a as [|y a].
      * simpl in H. rewrite Hl in H.
        apply andb_true_iff in H. destruct H as [_ H].
        apply andb_true_iff in H. destruct H as [H _].
        apply orb_false_iff in Hc. destruct Hc as [_ Hc]. congruence.
      * simpl app in H.
        assert (isTrailingSurrogate y = true) as Ht.
        { simpl in H. rewrite Hl in H.
          apply andb_true_iff in H. destruct H as [_ H].
          now apply andb_true_iff in H. }
        rewrite well_formed_pair in H by assumption.
        rewrite well_formed_pair by assumption.
        apply (IH (List.length a)); simpl in *; auto; lia.
    + assert (isUnit x = true /\ isSurrogate x = false) as [Hu Hs].
      { simpl in H. rewrite Hl in H. fold (isUnit x) in H.
        apply andb_true_iff in H. destruct H as [Hu H].
        apply andb_true_iff in H. destruct H as [H _].
        apply negb_true_iff in H. unfold isSurrogate. now rewrite Hl, H. }
      rewrite well_formed_cons in H by assumption.
      rewrite well_formed_cons by assumption.
      apply (IH (List.length a)); simpl in *; auto; lia.
Qed.

(** ** Percent-escapes *)

Lemma hexValue_hexDigit n :
  0 <= n < 16 -> hexValue (hexDigit n) = Some n.
Proof.
  intros H. unfold hexValue, hexDigit.
  destruct (Z.ltb_spec n 10).
  - replace ((48 <=? 48 + n) && (48 + n <=? 57)) with true by (symmetry; bool_lia).
    f_equal. lia.
  - replace ((48 <=? 55 + n) && (55 + n <=? 57)) with false by (symmetry; bool_lia).
    replace ((65 <=? 55 + n) && (55 + n <=? 70)) with true by (symmetry; bool_lia).
    f_equal. lia.
Qed.

Lemma ParseHexOctet_escape b :
  0 <= b < 256 ->
  ParseHexOctet (hexDigit (b / 16)) (hexDigit (b mod 16)) = Some b.
Proof.
  intros H. unfold ParseHexOctet.
  rewrite !hexValue_hexDigit.
  - f_equal. symmetry. apply Z.div_mod. lia.
  - apply Z.mod_pos_bound. lia.
  - split; [apply Z.div_pos | apply Z.div_lt_upper_bound]; lia.
Qed.

Lemma continuation_escapes bs r :
  Forall isOctet bs ->
  continuation (List.length bs) (flat_map escape_octet bs ++ r) = Some (bs, r).
Proof.
  induction 1 as [|b bs Hb _ IH]; [reflexivity|].
  cbn [List.length flat_map escape_octet app continuation].
  rewrite Z.eqb_refl, ParseHexOctet_escape by exact Hb.
  now rewrite IH.
Qed.

Lemma utf8_octets_range cp :
  isScalar cp -> Forall isOctet (utf8_octets cp).
Proof.
  intros [Hr _]. unfold utf8_octets, isOctet.
  repeat match goal with
    | |- context [?a <? ?b] => destruct (Z.ltb_spec a b)
    end;
  repeat constructor; div_mod_lia.
Qed.

(** The octets of a scalar value above 127: a lead octet that announces
    their number, and a sequence the decoder reads back as the value. *)
Lemma utf8_octets_multi cp :
  isScalar cp -> 128 <= cp ->
  exists b bs,
    utf8_octets cp = b :: bs /\
    leadingOnes b = S (List.length bs) /\
    (1 <= List.length bs <= 3)%nat /\
    utf8_code_point (b :: bs) = Some cp.
Proof.
  intros [Hr Hs] Hlo. unfold utf8_octets.
  destruct (Z.ltb_spec cp 128); [lia|].
  destruct (Z.ltb_spec cp 2048); [|destruct (Z.ltb_spec cp 65536)];
    eexists; eexists; (split; [reflexivity|]).
  - split; [|split; [simpl; lia|]].
    + unfold leadingOnes.
      repeat match goal with
        | |- context [?a <? ?b] => destruct (Z.ltb_spec a b)
        end; try reflexivity; exfalso; div_mod_lia.
    + unfold utf8_code_point.
      replace (isContinuationOctet (128 + cp mod 64)) with true
        by (symmetry; unfold isContinuationOctet; apply andb_true_iff;
            split; [apply Z.leb_le | apply Z.ltb_lt]; div_mod_lia).
      replace ((192 + cp / 64 - 192) * 64 + (128 + cp mod 64 - 128)) with cp
        by div_mod_lia.
      simpl. destruct (Z.leb_spec 128 cp); [reflexivity | lia].
  - split; [|split; [simpl; lia|]].
    + unfold leadingOnes.
      repeat match goal with
        | |- context [?a <? ?b] => destruct (Z.ltb_spec a b)
        end; try reflexivity; exfalso; div_mod_lia.
    + unfold utf8_code_point.
      replace (isContinuationOctet (128 + cp mod 64)) with true
        by (symmetry; unfold isContinuationOctet; apply andb_true_iff;
            split; [apply Z.leb_le | apply Z.ltb_lt]; div_mod_lia).
      replace (isContinuationOctet (128 + (cp / 64) mod 64)) with true
        by (symmetry; unfold isContinuationOctet; apply andb_true_iff;
            split; [apply Z.leb_le | apply Z.ltb_lt]; div_mod_lia).
      replace ((224 + cp / 4096 - 224) * 4096 + (128 + (cp / 64) mod 64 - 128) * 64
               + (128 + cp mod 64 - 128)) with cp by div_mod_lia.
      simpl.
      destruct (Z.leb_spec 2048 cp); [|lia].
      destruct (Z.leb_spec 55296 cp); destruct (Z.leb_spec cp 57343);
        simpl; try reflexivity; lia.
  - split; [|split; [simpl; lia|]].
    + unfold leadingOnes.
      repeat match goal with
        | |- context [?a <? ?b] => destruct (Z.ltb_spec a b)
        end; try reflexivity; exfalso; div_mod_lia.
    + unfold utf8_code_point.
      replace (isContinuationOctet (128 + cp mod 64)) with true
        by (symmetry; unfold isContinuationOctet; apply andb_true_iff;
            split; [apply Z.leb_le | apply Z.ltb_lt]; div_mod_lia).
      replace (isContinuationOctet (128 + (cp / 64) mod 64)) with true
        by (symmetry; unfold isContinuationOctet; apply andb_true_iff;
            split; [apply Z.leb_le | apply Z.ltb_lt]; div_mod_lia).
      replace (isContinuationOctet (128 + (cp / 4096) mod 64)) with true
        by (symmetry; unfold isContinuationOctet; apply andb_true_iff;
            split; [apply Z.leb_le | apply Z.ltb_lt]; div_mod_lia).
      replace ((240 + cp / 262144 - 240) * 262144
               + (128 + (cp / 4096) mod 64 - 128) * 4096
               + (128 + (cp / 64) mod 64 - 128) * 64
               + (128 + cp mod 64 - 128)) with cp by div_mod_lia.
      simpl.
      destruct (Z.leb_spec 65536 cp); [|lia].
      destruct (Z.leb_spec cp 1114111); simpl; try reflexivity; lia.
Qed.

(** ** Decoding what the encoder wrote *)

Lemma Decode_escape_ascii f c r :
  0 <= c < 128 ->
  Decode (S f) (escape_octet c ++ r) = (r' <- Decode f r;; Ok (c :: r')).
Proof.
  intros H. cbn [escape_octet app Decode].
  rewrite Z.eqb_refl, ParseHexOctet_escape by lia.
  unfold leadingOnes. destruct (Z.ltb_spec c 128); [reflexivity | lia].
Qed.

Lemma Decode_escape_multi f cp r :
  isScalar cp -> 128 <= cp ->
  Decode (S f) (flat_map escape_octet (utf8_octets cp) ++ r)
  = (r' <- Decode f r;; Ok (UTF16EncodeCodePoint cp ++ r')).
Proof.
  intros Hs Hlo.
  pose proof (utf8_octets_range cp Hs) as Hrange.
  destruct (utf8_octets_multi cp Hs Hlo) as (b & bs & Heq & Hlead & Hlen & Hcp).
  rewrite Heq in *. inversion Hrange as [|? ? Hb Hbs]; subst.
  cbn [flat_map]. rewrite <- app_assoc.
  cbn [escape_octet app Decode].
  rewrite Z.eqb_refl, ParseHexOctet_escape by exact Hb.
  cbv zeta. rewrite Hlead.
  replace (S (List.length bs) =? 0)%nat with false by reflexivity.
  replace ((S (List.length bs) =? 1)%nat || (4 <? S (List.length bs))%nat)
    with false.
  2:{ symmetry. apply orb_false_iff. split.
      - apply Nat.eqb_neq. lia.
      - apply Nat.ltb_ge. lia. }
  replace (S (List.length bs) - 1)%nat with (List.length bs) by lia.
  rewrite continuation_escapes by exact Hbs.
  now rewrite Hcp.
Qed.

Lemma unescaped_range c : uriUnescaped c = true -> 33 <= c <= 126 /\ c <> 37.
Proof.
  unfold uriUnescaped, isAlnum, existsb. intros H. bool_hyps; lia.
Qed.

Lemma unescaped_not_percent c : uriUnescaped c = true -> (c =? 37) = false.
Proof.
  intros H. apply unescaped_range in H. apply Z.eqb_neq. lia.
Qed.

Lemma unescaped_not_surrogate c : uriUnescaped c = true -> isSurrogate c = false.
Proof.
  intros H. apply unescaped_range in H.
  unfold isSurrogate, isLeadingSurrogate, isTrailingSurrogate.
  destruct (Z.leb_spec 55296 c); [lia|].
  destruct (Z.leb_spec 56320 c); [lia | reflexivity].
Qed.

Lemma surrogate_pair_scalar c d :
  isLeadingSurrogate c = true -> isTrailingSurrogate d = true ->
  isScalar (UTF16SurrogatePairToCodePoint c d) /\
  128 <= UTF16SurrogatePairToCodePoint c d /\
  UTF16EncodeCodePoint (UTF16SurrogatePairToCodePoint c d) = [c; d].
Proof.
  intros Hc Hd.
  assert (55296 <= c <= 56319)
    by (unfold isLeadingSurrogate in Hc; bool_hyps; lia).
  assert (56320 <= d <= 57343)
    by (unfold isTrailingSurrogate in Hd; bool_hyps; lia).
  unfold isScalar, UTF16EncodeCodePoint, UTF16SurrogatePairToCodePoint.
  repeat split; try lia.
  destruct (Z.ltb_spec ((c - 55296) * 1024 + (d - 56320) + 65536) 65536); [lia|].
  f_equal; [|f_equal]; div_mod_lia.
Qed.

(** Every well-formed string is encoded, and decoding the result gives the
    string back, with any fuel that covers the encoded length. *)
Lemma encode_then_Decode s :
  well_formed s = true ->
  exists e, encodeURIComponent s = Ok e /\
            forall f, (List.length e <= f)%nat -> Decode f e = Ok s.
Proof.
  revert s. apply well_formed_ind.
  - exists []. split; [reflexivity|]. intros f _. now destruct f.
  - intros c s Hu Hs _ (e & He & Hd).
    apply orb_false_iff in Hs. destruct Hs as [Hl Ht].
    cbn [encodeURIComponent]. rewrite He, Hl, Ht. cbn [bind].
    destruct (uriUnescaped c) eqn:Hun.
    + exists (c :: e). split; [reflexivity|].
      intros [|f] Hf; [simpl in Hf; lia|].
      cbn [Decode]. rewrite (unescaped_not_percent c Hun).
      rewrite Hd by (simpl in Hf; lia). reflexivity.
    + eexists. split; [reflexivity|].
      assert (0 <= c < 65536) as Hc by (unfold isUnit in Hu; bool_hyps; lia).
      assert (isScalar c) as Hsc.
      { unfold isScalar, isLeadingSurrogate, isTrailingSurrogate in *.
        bool_hyps; lia. }
      intros f Hf.
      assert (exists f', f = S f' /\ (List.length e <= f')%nat) as (f' & -> & Hf').
      { rewrite length_app in Hf. unfold utf8_octets in Hf.
        destruct f as [|f'];
          repeat match type of Hf with
            | context [?a <? ?b] => destruct (a <? b)
            end; simpl in Hf; try lia; exists f'; split; auto; lia. }
      destruct (Z.ltb_spec c 128).
      * unfold utf8_octets. destruct (Z.ltb_spec c 128); [|lia].
        cbn [flat_map]. rewrite app_nil_r.
        rewrite Decode_escape_ascii by lia. now rewrite Hd.
      * rewrite Decode_escape_multi by (auto; lia).
        rewrite Hd by exact Hf'. unfold UTF16EncodeCodePoint.
        destruct (Z.ltb_spec c 65536); [reflexivity | lia].
  - intros c d s Hl Ht _ (e & He & Hd).
    cbn [encodeURIComponent]. rewrite He, Hl, Ht. cbn [bind].
    assert (uriUnescaped c = false) as ->.
    { destruct (uriUnescaped c) eqn:Hun; [|reflexivity].
      apply unescaped_not_surrogate in Hun.
      unfold isSurrogate in Hun. rewrite Hl in Hun. discriminate. }
    destruct (surrogate_pair_scalar c d Hl Ht) as (Hsc & Hlo & Hback).
    eexists. split; [reflexivity|].
    intros f Hf.
    assert (exists f', f = S f' /\ (List.length e <= f')%nat) as (f' & -> & Hf').
    { rewrite length_app in Hf.
      destruct (utf8_octets_multi _ Hsc Hlo) as (b & bs & Heq & _).
      rewrite Heq in Hf. cbn [flat_map escape_octet app List.length] in Hf.
      destruct f as [|f']; [lia|]. exists f'. split; auto. lia. }
    rewrite Decode_escape_multi by assumption.
    rewrite Hd by exact Hf'. now rewrite Hback.
Qed.

(** [decodeURIComponent(encodeURIComponent(s))] is [s]. *)
Lemma decode_encode s :
  well_formed s = true ->
  exists e, encodeURIComponent s = Ok e /\ decodeURIComponent e = Ok s.
Proof.
  intros H. destruct (encode_then_Decode s H) as (e & He & Hd).
  exists e. split; [exact He|]. unfold decodeURIComponent. now apply Hd.
Qed.

Lemma hexDigit_range n : 0 <= n < 16 -> isUriChar (hexDigit n).
Proof.
  intros H. unfold isUriChar, hexDigit. destruct (Z.ltb_spec n 10); lia.
Qed.

Lemma escape_octets_chars bs :
  Forall isOctet bs -> Forall isUriChar (flat_map escape_octet bs).
Proof.
  induction 1 as [|b bs Hb _ IH]; [constructor|].
  unfold isOctet in Hb. cbn [flat_map escape_octet app].
  constructor; [unfold isUriChar; lia|].
  constructor; [apply hexDigit_range; div_mod_lia|].
  constructor; [apply hexDigit_range; div_mod_lia | exact IH].
Qed.

Lemma encode_chars s :
  well_formed s = true ->
  forall e, encodeURIComponent s = Ok e -> Forall isUriChar e.
Proof.
  revert s.
  apply (well_formed_ind
           (fun s => forall e, encodeURIComponent s = Ok e -> Forall isUriChar e)).
  - intros e [= <-]. constructor.
  - intros c s Hu Hs _ IH e.
    apply orb_false_iff in Hs. destruct Hs as [Hl Ht].
    cbn [encodeURIComponent]. rewrite Hl, Ht.
    destruct (encodeURIComponent s) as [e'|]; cbn [bind];
      [|destruct (uriUnescaped c); discriminate].
    specialize (IH e' eq_refl).
    destruct (uriUnescaped c) eqn:Hun; intros [= <-].
    + constructor; [|exact IH]. apply unescaped_range in Hun.
      unfold isUriChar. lia.
    + apply Forall_app. split; [|exact IH].
      apply escape_octets_chars, utf8_octets_range.
      unfold isScalar, isUnit, isLeadingSurrogate, isTrailingSurrogate in *.
      bool_hyps; lia.
  - intros c d s Hl Ht _ IH e.
    assert (uriUnescaped c = false) as Hun.
    { destruct (uriUnescaped c) eqn:Hun; [|reflexivity].
      apply unescaped_not_surrogate in Hun.
      unfold isSurrogate in Hun. rewrite Hl in Hun. discriminate. }
    cbn [encodeURIComponent]. rewrite Hun, Hl, Ht.
    destruct (encodeURIComponent s) as [e'|]; cbn [bind]; [|discriminate].
    specialize (IH e' eq_refl).
    intros [= <-]. apply Forall_app. split; [|exact IH].
    apply escape_octets_chars, utf8_octets_range.
    now apply surrogate_pair_scalar.
Qed.

Lemma uriChar_not_trimmable c : isUriChar c -> isTrimmable c = false.
Proof.
  unfold isUriChar. intros H.
  destruct (isTrimmable c) eqn:E; [|reflexivity].
  unfold isTrimmable, isLineTerminator in E. bool_hyps; lia.
Qed.

Lemma trimmable_plain c :
  isTrimmable c = true -> isUnit c = true /\ isSurrogate c = false.
Proof.
  intros H.
  assert (0 <= c < 55296 \/ c = 65279) as Hc.
  { unfold isTrimmable, isLineTerminator in H. bool_hyps; lia. }
  unfold isUnit, isSurrogate, isLeadingSurrogate, isTrailingSurrogate.
  split.
  - apply andb_true_iff. split; [apply Z.leb_le | apply Z.ltb_lt]; lia.
  - apply orb_false_iff. split; apply andb_false_iff;
      (destruct Hc; [left; apply Z.leb_gt | right; apply Z.leb_gt]; lia).
Qed.

Lemma terminator_trimmable c : isLineTerminator c = true -> isTrimmable c = true.
Proof.
  intros H. unfold isTrimmable. rewrite H. now rewrite !orb_true_r.
Qed.

(** ** Trimming *)

Lemma trimStart_split s :
  exists ws, s = ws ++ trimStart s /\ Forall (fun c => isTrimmable c = true) ws.
Proof.
  induction s as [|c s (ws & Heq & Hws)].
  - exists []. now split.
  - simpl. destruct (isTrimmable c) eqn:E.
    + exists (c :: ws). split; [simpl; now f_equal | now constructor].
    + exists []. now split.
Qed.

Lemma trimEnd_split s :
  exists ws, s = trimEnd s ++ ws /\ Forall (fun c => isTrimmable c = true) ws.
Proof.
  destruct (trimStart_split (rev s)) as (ws & Heq & Hws).
  exists (rev ws). split.
  - unfold trimEnd. rewrite <- rev_app_distr, <- Heq. now rewrite rev_involutive.
  - now apply Forall_rev.
Qed.

Lemma well_formed_drop_trimmable ws s :
  Forall (fun c => isTrimmable c = true) ws ->
  well_formed (ws ++ s) = well_formed s.
Proof.
  induction 1 as [|c ws Hc _ IH]; [reflexivity|].
  destruct (trimmable_plain c Hc) as [Hu Hs].
  simpl app. now rewrite well_formed_cons.
Qed.

Lemma well_formed_strip_end s ws :
  Forall (fun c => isTrimmable c = true) ws ->
  well_formed (s ++ ws) = true -> well_formed s = true.
Proof.
  intros Hws. destruct Hws as [|c ws Hc _].
  - now rewrite app_nil_r.
  - intros H. apply well_formed_cut in H; [tauto|].
    now apply trimmable_plain.
Qed.

Lemma well_formed_trim s : well_formed s = true -> well_formed (trim s) = true.
Proof.
  intros H. unfold trim.
  destruct (trimStart_split s) as (ws & Heq & Hws).
  rewrite Heq, well_formed_drop_trimmable in H by exact Hws.
  destruct (trimEnd_split (trimStart s)) as (ws' & Heq' & Hws').
  rewrite Heq' in H. now apply well_formed_strip_end in H.
Qed.

Lemma trimStart_keeps c s : isTrimmable c = false -> trimStart (c :: s) = c :: s.
Proof. intros H. simpl. now rewrite H. Qed.

Lemma trimStart_app_keeps x c y :
  isTrimmable c = false -> exists x', trimStart (x ++ c :: y) = x' ++ c :: y.
Proof.
  intros Hc. induction x as [|a x (x' & IH)].
  - exists []. simpl. now rewrite Hc.
  - simpl. destruct (isTrimmable a).
    + now exists x'.
    + now exists (a :: x).
Qed.

(** Trimming the end never reaches behind a unit it does not strip. *)
Lemma trimEnd_app_keeps p c s :
  isTrimmable c = false -> exists s', trimEnd (p ++ c :: s) = p ++ c :: s'.
Proof.
  intros Hc. unfold trimEnd.
  rewrite rev_app_distr. simpl rev. rewrite <- app_assoc. simpl app.
  destruct (trimStart_app_keeps (rev s) c (rev p) Hc) as (x' & ->).
  exists (rev x'). rewrite rev_app_distr. simpl rev.
  rewrite rev_involutive, <- app_assoc. reflexivity.
Qed.

Lemma trimEnd_keeps s c : isTrimmable c = false -> trimEnd (s ++ [c]) = s ++ [c].
Proof.
  intros Hc. unfold trimEnd. rewrite rev_app_distr. simpl.
  rewrite Hc. simpl. now rewrite rev_involutive.
Qed.

(** ** Prefixes and occurrences *)

Lemma startsWith_app p s : startsWith (p ++ s) p = true.
Proof.
  induction p as [|c p IH]; [reflexivity|].
  simpl. now rewrite Z.eqb_refl, IH.
Qed.

Lemma startsWith_iff s p : startsWith s p = true <-> exists t, s = p ++ t.
Proof.
  split.
  - revert s. induction p as [|c p IH]; intros s H.
    + now exists s.
    + destruct s as [|x s]; [discriminate|]. simpl in H.
      apply andb_true_iff in H. destruct H as [Hx H].
      apply Z.eqb_eq in Hx. subst x.
      destruct (IH s H) as (t & ->). now exists t.
  - intros (t & ->). apply startsWith_app.
Qed.

Lemma includes_iff s p :
  includes s p = true <-> exists a b, s = a ++ p ++ b.
Proof.
  split.
  - induction s as [|c s IH]; simpl; intros H.
    + rewrite orb_false_r in H. apply startsWith_iff in H.
      destruct H as (t & Ht). now exists [], t.
    + apply orb_true_iff in H. destruct H as [H|H].
      * apply startsWith_iff in H. destruct H as (t & Ht). now exists [], t.
      * destruct (IH H) as (a & b & ->). now exists (c :: a), b.
  - intros (a & b & ->). induction a as [|c a IH].
    + simpl app. destruct (p ++ b) eqn:E; simpl; rewrite <- ?E;
        rewrite startsWith_app; reflexivity.
    + simpl app. simpl. rewrite IH. apply orb_true_r.
Qed.

(** The pattern, spelled out: the line does not begin with [#], and [.ts]
    occurs in it after at least one unit. *)
Lemma segment_pattern_iff l :
  segment_pattern l = true <->
  startsWith l (lit "#") = false /\
  exists c a b, l = c :: a ++ lit ".ts" ++ b.
Proof.
  unfold segment_pattern. rewrite andb_true_iff, negb_true_iff.
  split; intros [Hh H]; (split; [exact Hh|]).
  - destruct l as [|c l]; [discriminate|].
    apply includes_iff in H. destruct H as (a & b & ->). now exists c, a, b.
  - destruct H as (c & a & b & ->). apply includes_iff. now exists a, b.
Qed.

Lemma passthrough_not_segment l :
  startsWith l (lit "#") = true \/ includes l (lit ".ts") = false ->
  segment_pattern l = false.
Proof.
  unfold segment_pattern. intros [H|H].
  - now rewrite H.
  - destruct l as [|c l]; [apply andb_false_r|].
    simpl in H. apply orb_false_iff in H. destruct H as [_ H].
    rewrite H. apply andb_false_r.
Qed.

(** ** The base of a URL *)

Lemma lastIndexOf_from_spec c s :
  forall i, 0 <= i ->
    (~ In c s /\ lastIndexOf_from i c s = -1) \/
    (exists p q, s = p ++ c :: q /\ ~ In c q /\
                 lastIndexOf_from i c s = i + Z.of_nat (List.length p)).
Proof.
  induction s as [|x s IH]; intros i Hi.
  - left. now split.
  - cbn [lastIndexOf_from]. destruct (IH (i + 1) ltac:(lia)) as [[Hn ->]|(p & q & -> & Hq & ->)].
    + replace (0 <=? -1) with false by reflexivity.
      destruct (Z.eqb_spec x c) as [->|Hx].
      * right. exists [], s. repeat split; auto. simpl. lia.
      * left. split; [|reflexivity]. intros [H|H]; auto.
    + right. exists (x :: p), q. repeat split; auto.
      destruct (Z.leb_spec 0 (i + 1 + Z.of_nat (List.length p))); [|lia].
      simpl List.length. lia.
Qed.

(** [base_of] keeps the URL up to and including its last [/], and nothing
    of a URL without one. *)
Lemma base_of_spec url :
  (~ In 47 url /\ base_of url = []) \/
  (exists p q, url = p ++ 47 :: q /\ ~ In 47 q /\ base_of url = p ++ [47]).
Proof.
  unfold base_of, lastIndexOf, substring0.
  destruct (lastIndexOf_from_spec 47 url 0 ltac:(lia))
    as [[Hn ->]|(p & q & -> & Hq & ->)].
  - left. now split.
  - right. exists p, q. repeat split; auto.
    replace (Z.to_nat (0 + Z.of_nat (List.length p) + 1))
      with (List.length (p ++ [47%Z]) + 0)%nat
      by (rewrite length_app; simpl; lia).
    change (p ++ 47 :: q) with (p ++ [47] ++ q). rewrite app_assoc.
    rewrite firstn_app_2. simpl. apply app_nil_r.
Qed.

Lemma well_formed_base url :
  well_formed url = true -> well_formed (base_of url) = true.
Proof.
  intros H. destruct (base_of_spec url) as [[_ ->]|(p & q & -> & _ & ->)].
  - reflexivity.
  - apply well_formed_cut in H; [|reflexivity].
    apply well_formed_app; [tauto | reflexivity].
Qed.

(** ** Lines *)

Lemma lines_nonempty s : lines s <> [].
Proof.
  destruct s as [|c s]; simpl; [discriminate|].
  destruct (isLineTerminator c); [discriminate|].
  destruct (lines s); discriminate.
Qed.

Lemma lines_length s :
  List.length (lines s) = S (List.length (terminators s)).
Proof.
  induction s as [|c s IH]; [reflexivity|].
  unfold terminators in *. simpl.
  destruct (isLineTerminator c); simpl; [now rewrite IH|].
  destruct (lines s) eqn:E; [now apply lines_nonempty in E | exact IH].
Qed.

Lemma lines_plain s : Forall plain_line (lines s).
Proof.
  induction s as [|c s IH]; simpl.
  - repeat constructor.
  - destruct (isLineTerminator c) eqn:E.
    + constructor; [constructor | exact IH].
    + destruct (lines s) as [|l ls]; [repeat constructor; exact E|].
      inversion IH; subst. constructor; [|assumption].
      constructor; assumption.
Qed.

Lemma terminators_all s : Forall (fun c => isLineTerminator c = true) (terminators s).
Proof.
  unfold terminators. apply Forall_forall. intros c H.
  now apply filter_In in H.
Qed.

Lemma unlines_lines s : unlines (lines s) (terminators s) = s.
Proof.
  induction s as [|c s IH]; [reflexivity|].
  unfold terminators in *. simpl.
  destruct (isLineTerminator c); simpl.
  - now rewrite IH.
  - destruct (lines s) as [|l ls] eqn:E; [now apply lines_nonempty in E|].
    destruct (filter isLineTerminator s) as [|t ts]; simpl in *.
    + now rewrite IH.
    + now rewrite IH.
Qed.

Lemma lines_plain_app l t s :
  plain_line l -> isLineTerminator t = true ->
  lines (l ++ t :: s) = l :: lines s.
Proof.
  intros Hl Ht. induction Hl as [|c l Hc _ IH]; simpl.
  - now rewrite Ht.
  - now rewrite Hc, IH.
Qed.

Lemma lines_plain_only l : plain_line l -> lines l = [l].
Proof.
  induction 1 as [|c l Hc _ IH]; [reflexivity|].
  simpl. now rewrite Hc, IH.
Qed.

Lemma terminators_plain l : plain_line l -> terminators l = [].
Proof.
  unfold terminators. induction 1 as [|c l Hc _ IH]; [reflexivity|].
  simpl. now rewrite Hc.
Qed.

(** Lines without terminators, put together with terminators, are the
    lines of the text they make. *)
Lemma lines_unlines ls ts :
  Forall plain_line ls ->
  Forall (fun c => isLineTerminator c = true) ts ->
  List.length ls = S (List.length ts) ->
  lines (unlines ls ts) = ls /\ terminators (unlines ls ts) = ts.
Proof.
  intros Hls. revert ts. induction Hls as [|l ls Hl _ IH]; intros ts Hts Hlen.
  - discriminate.
  - destruct ts as [|t ts].
    + destruct ls; [|discriminate]. simpl.
      split; [now apply lines_plain_only | now apply terminators_plain].
    + inversion Hts; subst. simpl in Hlen.
      destruct (IH ts) as [IH1 IH2]; [assumption | lia |].
      simpl unlines. split.
      * rewrite lines_plain_app by assumption. now rewrite IH1.
      * pose proof (terminators_plain l Hl) as Hnone.
        unfold terminators in *. rewrite filter_app, Hnone. simpl.
        match goal with H : isLineTerminator t = true |- _ => rewrite H end.
        now rewrite IH2.
Qed.

Lemma well_formed_lines s :
  well_formed s = true -> Forall (fun l => well_formed l = true) (lines s).
Proof.
  revert s. apply well_formed_ind.
  - repeat constructor.
  - intros c s Hu Hs _ IH. simpl.
    destruct (isLineTerminator c); [constructor; auto|].
    destruct (lines s) as [|l ls]; [constructor; auto|].
    + now rewrite well_formed_cons.
    + inversion IH; subst. constructor; [|assumption].
      now rewrite well_formed_cons.
  - intros c d s Hl Ht _ IH.
    assert (isLineTerminator c = false) as Hc.
    { destruct (isLineTerminator c) eqn:E; [|reflexivity].
      apply terminator_trimmable, trimmable_plain in E.
      unfold isSurrogate in E. rewrite Hl in E. now destruct E. }
    assert (isLineTerminator d = false) as Hd.
    { destruct (isLineTerminator d) eqn:E; [|reflexivity].
      apply terminator_trimmable, trimmable_plain in E.
      unfold isSurrogate in E. rewrite Ht, orb_true_r in E. now destruct E. }
    cbn [lines]. rewrite Hc, Hd.
    destruct (lines s) as [|l ls].
    + constructor; [|constructor]. now rewrite well_formed_pair.
    + inversion IH; subst. constructor; [|assumption].
      now rewrite well_formed_pair.
Qed.

Lemma mapM_Forall2 {A B} (f : A -> completion B) l outs :
  mapM f l = Ok outs -> Forall2 (fun x y => f x = Ok y) l outs.
Proof.
  revert outs. induction l as [|x l IH]; simpl; intros outs H.
  - injection H as <-. constructor.
  - destruct (f x) as [y|] eqn:Hy; [|discriminate]. simpl in H.
    destruct (mapM f l) as [ys|]; [|discriminate]. simpl in H.
    injection H as <-. constructor; auto.
Qed.

Lemma Forall2_mapM {A B} (f : A -> completion B) l outs :
  Forall2 (fun x y => f x = Ok y) l outs -> mapM f l = Ok outs.
Proof.
  induction 1 as [|x y l outs Hxy _ IH]; simpl; [reflexivity|].
  now rewrite Hxy, IH.
Qed.

(** ** Examples *)

Example lit_ts : lit ".ts" = [46; 116; 115].
Proof. reflexivity. Qed.

Example trim_example : trim (lit "  seg0.ts ") = lit "seg0.ts".
Proof. reflexivity. Qed.

Example toString_404 : Number_toString 404 = lit "404".
Proof. reflexivity. Qed.

Example base_of_example :
  base_of (lit "http://cdn.example/a/index.m3u8") = lit "http://cdn.example/a/".
Proof. reflexivity. Qed.

Example decode_euro : decodeURIComponent (lit "%E2%82%AC%f0%9F%98%80") = Ok [8364; 55357; 56832].
Proof. reflexivity. Qed.

Example decode_overlong : decodeURIComponent (lit "%C0%AF") = Throw uriMalformed.
Proof. reflexivity. Qed.

Example decode_truncated : decodeURIComponent (lit "%E0%A4%A") = Throw uriMalformed.
Proof. reflexivity. Qed.

Example encode_lone_surrogate : encodeURIComponent [55357] = Throw uriMalformed.
Proof. reflexivity. Qed.

(** The scenario of the specification: the manifest at
    [http://cdn.example/a/index.m3u8] with one relative and one absolute
    segment. *)
Example scenario_rewrite :
  respond_with (m3u8_proxy sample_parse sample_request)
    (Resolved (upstream_of 200 (lit "OK") no_headers sample_playlist))
  = {| status := 200; fields := manifest_fields; payload := Text sample_rewritten |}.
Proof. vm_compute. reflexivity. Qed.

(** ** The handlers before and after the fetch *)

Section HandlerFacts.

Variable JSON_parse : jsstring -> completion jsvalue.

(** A handler that reaches [fetch] has decoded its [url] parameter, and
    goes on as its [try] block says. *)
Lemma m3u8_proxy_fetches req url opts k :
  m3u8_proxy JSON_parse req = Fetch url opts k ->
  truthy (query_url req) = true /\
  decodeURIComponent (stringOr "undefined" (query_url req)) = Ok url /\
  opts = {| fo_headers := spread manifest_defaults (request_headers JSON_parse req);
            fo_timeout := 30000 |} /\
  k = (fun outcome => catch_all (lit "Failed to fetch M3U8")
                        (manifest_after_fetch req url outcome)).
Proof.
  unfold m3u8_proxy. destruct (truthy (query_url req)); [|discriminate].
  cbn [negb]. destruct (decodeURIComponent _) as [d|e]; [|discriminate].
  intros [= <- <- <-]. auto.
Qed.

Lemma ts_proxy_fetches req url opts k :
  ts_proxy JSON_parse req = Fetch url opts k ->
  truthy (query_url req) = true /\
  decodeURIComponent (stringOr "undefined" (query_url req)) = Ok url /\
  opts = {| fo_headers := spread (segment_defaults req) (request_headers JSON_parse req);
            fo_timeout := 30000 |} /\
  k = (fun outcome => catch_all (lit "Failed to fetch TS file")
                        (segment_after_fetch outcome)).
Proof.
  unfold ts_proxy. destruct (truthy (query_url req)); [|discriminate].
  cbn [negb]. destruct (decodeURIComponent _) as [d|e]; [|discriminate].
  intros [= <- <- <-]. auto.
Qed.

End HandlerFacts.


(** ** Missing [url] *)

(** C5.  A request to [/m3u8-proxy] or to [/ts-proxy] without the [url]
    query parameter is answered at once, with no call of [fetch]: status
    400 and the JSON body that reads
    [{ "error" : "URL parameter is required" }] without the spaces. *)
Theorem missing_url_is_400
  (JSON_parse : jsstring -> completion jsvalue) (req : request) :
  query_url req = None ->
  m3u8_proxy JSON_parse req = Respond missing_url /\
  ts_proxy JSON_parse req = Respond missing_url /\
  status missing_url = 400 /\
  payload missing_url = Json [(lit "error", lit "URL parameter is required")] /\
  body_text (payload missing_url)
  = lit "{" ++ quote ++ lit "error" ++ quote ++ lit ":"
    ++ quote ++ lit "URL parameter is required" ++ quote ++ lit "}".
Proof.
  intros H. unfold m3u8_proxy, ts_proxy. rewrite H. cbn [truthy negb].
  repeat split; reflexivity.
Qed.

Lemma missing_url_is_400_witness :
  query_url (with_url None sample_request) = None /\
  m3u8_proxy sample_parse (with_url None sample_request) = Respond missing_url.
Proof.
  split; [reflexivity|].
  apply (missing_url_is_400 sample_parse (with_url None sample_request)).
  reflexivity.
Defined.

(** ** Upstream failures *)

(** [`${n}`] of a number that is not negative is its decimal numeral. *)










(** ** The segment response *)

(** C7, as the code has it.  On a 2xx upstream answer [/ts-proxy] responds
    206 with the upstream [Content-Range] value exactly when that value is
    present and not empty; with no such header, or an empty one, it
    responds 200 and sets no [Content-Range].  In all these cases it sets
    [Accept-Ranges: bytes] and a [Content-Type]: the upstream value, with
    [; charset=utf-8] after it when the value has no charset and begins
    with [text/], [application/javascript] or [application/json], or
    [video/mp2t] when the upstream value is absent or empty; the body is
    the upstream body. *)
Theorem segment_success_fields
  (JSON_parse : jsstring -> completion jsvalue)
  (req : request) (url : jsstring) (opts : fetch_options)
  (k : fetched -> response) (up : upstream) :
  ts_proxy JSON_parse req = Fetch url opts k ->
  up_ok up = true ->
  let r := k (Resolved up) in
  let range := up_header up (lit "content-range") in
  let type := up_header up (lit "content-type") in
  (forall v, range = Some v -> v <> [] ->
             status r = 206 /\
             get_field (fields r) (lit "Content-Range") = Some v) /\
  (range = None \/ range = Some [] ->
   status r = 200 /\ get_field (fields r) (lit "Content-Range") = None) /\
  get_field (fields r) (lit "Accept-Ranges") = Some (lit "bytes") /\
  (forall t, type = Some t -> t <> [] ->
             get_field (fields r) (lit "Content-Type")
             = Some (if hasCharset t then t
                     else if isTextual t then t ++ lit "; charset=utf-8"
                     else t)) /\
  (type = None \/ type = Some [] ->
   get_field (fields r) (lit "Content-Type") = Some (lit "video/mp2t")) /\
  payload r = Piped (up_body up).
Proof.
  intros H Hok r range type. subst r.
  apply ts_proxy_fetches in H. destruct H as (_ & _ & _ & ->).
  unfold segment_after_fetch, segment_fields. cbn [await bind].
  rewrite Hok. cbn [negb catch_all].
  fold range. fold type.
  destruct range as [[|c v]|]; destruct type as [[|d t]|];
    (split; [|split; [|split; [|split; [|split]]]];
     [ intros v' E Hv; try discriminate E; injection E as <-;
       try (now destruct Hv); split; reflexivity
     | intros [E|E]; try discriminate E; split; reflexivity
     | reflexivity
     | intros t' E Ht; try discriminate E; injection E as <-;
       try (now destruct Ht); reflexivity
     | intros [E|E]; try discriminate E; reflexivity
     | reflexivity ]).
Qed.

Lemma segment_success_fields_witness :
  let up := upstream_of 206 (lit "Partial Content") ranged_text_headers
              (lit "octets") in
  let r := respond_with (ts_proxy sample_parse sample_request) (Resolved up) in
  up_ok up = true /\
  status r = 206 /\
  get_field (fields r) (lit "Content-Range") = Some (lit "bytes 0-999/5000") /\
  get_field (fields r) (lit "Content-Type") = Some (lit "text/plain; charset=utf-8") /\
  get_field (fields r) (lit "Accept-Ranges") = Some (lit "bytes") /\
  payload r = Piped (lit "octets").
Proof.
  intros up r.
  destruct (segment_success_fields sample_parse sample_request _ _ _ up
              eq_refl eq_refl) as (H1 & _ & H3 & H4 & _ & H6).
  split; [reflexivity|].
  destruct (H1 (lit "bytes 0-999/5000") eq_refl ltac:(discriminate)) as [Ha Hb].
  split; [exact Ha|]. split; [exact Hb|].
  split; [exact (H4 (lit "text/plain") eq_refl ltac:(discriminate))|].
  split; [exact H3 | exact H6].
Defined.

(** C7 as stated fails on an upstream answer that carries an empty
    [Content-Range]: the header is there, the response is 200 and has no
    [Content-Range]. *)
Lemma empty_content_range_not_mirrored :
  let up := upstream_of 206 (lit "Partial Content")
              (one_header (lit "content-range") []) (lit "octets") in
  let r := respond_with (ts_proxy sample_parse sample_request) (Resolved up) in
  up_ok up = true /\
  up_header up (lit "content-range") = Some [] /\
  status r <> 206 /\
  get_field (fields r) (lit "Content-Range") <> Some [].
Proof.
  vm_compute. repeat split; discriminate.
Qed.

(** ** Header overrides that do not decode *)

(** C8.  When the [headers] parameter fails percent-decoding, or decodes to
    text [JSON.parse] rejects, [requestHeaders] stays the empty object and
    each handler goes on to [fetch] the decoded URL with exactly its
    default header set: the failure ends inside the header-building
    step. *)
Theorem header_failure_keeps_defaults
  (JSON_parse : jsstring -> completion jsvalue)
  (req : request) (raw url : jsstring) :
  query_headers req = Some raw ->
  (exists e, decodeURIComponent raw = Throw e) \/
  (exists d e, decodeURIComponent raw = Ok d /\ JSON_parse d = Throw e) ->
  truthy (query_url req) = true ->
  decodeURIComponent (stringOr "undefined" (query_url req)) = Ok url ->
  request_headers JSON_parse req = VObject [] /\
  (exists k, m3u8_proxy JSON_parse req
             = Fetch url {| fo_headers := manifest_defaults;
                            fo_timeout := 30000 |} k) /\
  (exists k, ts_proxy JSON_parse req
             = Fetch url {| fo_headers := segment_defaults req;
                            fo_timeout := 30000 |} k).
Proof.
  intros Hraw Hfail Hurl Hdec.
  assert (request_headers JSON_parse req = VObject []) as Hrh.
  { unfold request_headers. rewrite Hraw. cbn [stringOr].
    destruct (truthy (Some raw)); [|reflexivity].
    destruct Hfail as [(e & ->)|(d & e & -> & He)]; cbn [bind];
      [|rewrite He]; reflexivity. }
  split; [exact Hrh|].
  unfold m3u8_proxy, ts_proxy. rewrite Hurl, Hdec, Hrh. cbn [negb].
  split; eexists; reflexivity.
Qed.

Lemma header_failure_keeps_defaults_witness :
  let req := with_headers (lit "%7Bnot-json") sample_request in
  decodeURIComponent (lit "%7Bnot-json") = Ok (lit "{not-json") /\
  sample_parse (lit "{not-json") = Throw (SyntaxError (lit "Unexpected token")) /\
  exists k, m3u8_proxy sample_parse req
            = Fetch (lit "http://cdn.example/a/index.m3u8")
                {| fo_headers := manifest_defaults; fo_timeout := 30000 |} k.
Proof.
  intros req. split; [reflexivity|]. split; [reflexivity|].
  apply (header_failure_keeps_defaults sample_parse req (lit "%7Bnot-json")
           (lit "http://cdn.example/a/index.m3u8") eq_refl).
  - right. exists (lit "{not-json"), (SyntaxError (lit "Unexpected token")).
    split; reflexivity.
  - reflexivity.
  - reflexivity.
Defined.

(** ** What the encoder and the decoder throw *)

Lemma encode_throws s e : encodeURIComponent s = Throw e -> e = uriMalformed.
Proof.
  remember (List.length s) as n eqn:Hn. revert s Hn e.
  induction n as [n IH] using lt_wf_ind. intros [|c s] Hn e; [discriminate|].
  cbn [encodeURIComponent].
  assert (forall t, (List.length t < n)%nat ->
                    forall (g : jsstring -> completion jsstring),
                      (forall r, g r <> Throw e) ->
                      (r <- encodeURIComponent t;; g r) = Throw e ->
                      e = uriMalformed) as Hrec.
  { intros t Ht g Hg. destruct (encodeURIComponent t) as [r|e'] eqn:E; cbn [bind].
    - intros H. now apply Hg in H.
    - intros [= ->]. now apply (IH _ Ht t eq_refl). }
  destruct (uriUnescaped c).
  - apply Hrec; [simpl in Hn; lia | discriminate].
  - destruct (isLeadingSurrogate c).
    + destruct s as [|d s]; [now intros [= <-]|].
      destruct (isTrailingSurrogate d); [|now intros [= <-]].
      apply Hrec; [simpl in Hn; lia | discriminate].
    + destruct (isTrailingSurrogate c); [now intros [= <-]|].
      apply Hrec; [simpl in Hn; lia | discriminate].
Qed.


Lemma continuation_length n :
  forall s bs r, continuation n s = Some (bs, r) ->
                 (List.length r <= List.length s)%nat.
Proof.
  induction n as [|n IH]; intros s bs r; cbn [continuation].
  - intros [= _ <-]. lia.
  - destruct s as [|p [|h [|l s]]]; try discriminate.
    destruct (p =? 37); [|discriminate].
    destruct (ParseHexOctet h l); [|discriminate].
    destruct (continuation n s) as [[bs' r']|] eqn:E; [|discriminate].
    intros [= _ <-]. apply IH in E. simpl. lia.
Qed.

(** The fuel of [decodeURIComponent] never runs out: any fuel that covers
    the length gives the same completion. *)
Lemma Decode_fuel f :
  forall f' s, (List.length s <= f)%nat -> (List.length s <= f')%nat ->
               Decode f s = Decode f' s.
Proof.
  induction f as [|f IH]; intros f' [|c s] Hf Hf';
    try (now destruct f').
  destruct f' as [|f']; [simpl in Hf'; lia|].
  simpl in Hf, Hf'. cbn [Decode].
  destruct (c =? 37); [|now rewrite (IH f' s) by lia].
  destruct s as [|h [|l s]]; try reflexivity.
  simpl in Hf, Hf'.
  destruct (ParseHexOctet h l) as [b|]; [|reflexivity].
  cbv zeta.
  destruct (leadingOnes b =? 0)%nat; [now rewrite (IH f' s) by lia|].
  destruct ((leadingOnes b =? 1)%nat || (4 <? leadingOnes b)%nat);
    [reflexivity|].
  destruct (continuation (leadingOnes b - 1) s) as [[bs s']|] eqn:E;
    [|reflexivity].
  apply continuation_length in E.
  destruct (utf8_code_point (b :: bs)); [|reflexivity].
  now rewrite (IH f' s') by lia.
Qed.

(** ** The test for an absolute reference *)

Lemma rewrite_callback_plain req baseUrl line :
  truthy (query_headers req) = false ->
  rewrite_callback req baseUrl line
  = (e <- encodeURIComponent (resolve baseUrl line);;
     Ok (origin req ++ lit "/ts-proxy?url=" ++ e)).
Proof.
  intros H. unfold rewrite_callback. rewrite H.
  destruct (encodeURIComponent (resolve baseUrl line)); reflexivity.
Qed.

(** C10.  The rewrite takes a reference for absolute exactly when its
    trimmed text begins with the four units [http]: such a reference, the
    file name [httpd_seg.ts] among them, goes into the link as it is;
    any other, [ftp://host/seg.ts] among them, is put behind [baseUrl]. *)
Theorem absolute_test_is_http_prefix
  (req : request) (baseUrl line : jsstring) :
  (startsWith (trim line) (lit "http") = true ->
   resolve baseUrl line = trim line) /\
  (startsWith (trim line) (lit "http") = false ->
   resolve baseUrl line = baseUrl ++ trim line) /\
  (truthy (query_headers req) = false ->
   rewrite_callback req baseUrl line
   = (e <- encodeURIComponent (resolve baseUrl line);;
      Ok (origin req ++ lit "/ts-proxy?url=" ++ e))) /\
  resolve baseUrl (lit "httpd_seg.ts") = lit "httpd_seg.ts" /\
  resolve baseUrl (lit "ftp://host/seg.ts") = baseUrl ++ lit "ftp://host/seg.ts".
Proof.
  unfold resolve. repeat split.
  - now intros ->.
  - now intros ->.
  - apply rewrite_callback_plain.
Qed.

Lemma absolute_test_is_http_prefix_witness :
  let base := lit "http://cdn.example/a/" in
  rewrite_callback sample_request base (lit "httpd_seg.ts")
  = Ok (lit "http://relay.example/ts-proxy?url=httpd_seg.ts") /\
  resolve base (lit " ftp://host/seg.ts")
  = lit "http://cdn.example/a/ftp://host/seg.ts".
Proof.
  intros base.
  destruct (absolute_test_is_http_prefix sample_request base (lit "httpd_seg.ts"))
    as (_ & _ & H3 & _).
  destruct (absolute_test_is_http_prefix sample_request base (lit " ftp://host/seg.ts"))
    as (_ & H2 & _).
  split.
  - rewrite (H3 eq_refl). reflexivity.
  - rewrite (H2 eq_refl). reflexivity.
Defined.

(** ** The [headers] parameter in the rewrite *)

Lemma rewrite_callback_with_headers req baseUrl line :
  truthy (query_headers req) = true ->
  rewrite_callback req baseUrl line = Throw uriMalformed \/
  rewrite_callback req baseUrl line = Throw constAssignment.
Proof.
  intros H. unfold rewrite_callback. rewrite H.
  destruct (encodeURIComponent (resolve baseUrl line)) as [e|x] eqn:E; cbn [bind].
  - destruct (encodeURIComponent (stringOr "undefined" (query_headers req)))
      as [h|x] eqn:E'; cbn [bind assign_const].
    + now right.
    + left. now rewrite (encode_throws _ _ E').
  - left. now rewrite (encode_throws _ _ E).
Qed.

Lemma replace_throws (f : jsstring -> completion jsstring) (Q : exn -> Prop) ls :
  (forall l, segment_pattern l = true -> exists e, f l = Throw e /\ Q e) ->
  (exists l, In l ls /\ segment_pattern l = true) ->
  exists e, mapM (replace_line f) ls = Throw e /\ Q e.
Proof.
  intros Hf. induction ls as [|l ls IH]; intros (x & Hin & Hx); [destruct Hin|].
  cbn [mapM]. unfold replace_line at 1.
  destruct (segment_pattern l) eqn:El.
  - destruct (Hf l El) as (e & -> & He). now exists e.
  - destruct Hin as [->|Hin]; [congruence|].
    destruct IH as (e & -> & He); [now exists x|]. now exists e.
Qed.

(** C1, against the code.  With a non-empty [headers] parameter the
    replacer assigns to its [const proxyUrl]: once the manifest has a line
    the pattern matches, [/m3u8-proxy] responds 500 with the message of
    that failure (or of an encoding failure before it) and returns no
    playlist. *)
Theorem headers_param_fails_rewrite
  (JSON_parse : jsstring -> completion jsvalue)
  (req : request) (url : jsstring) (opts : fetch_options)
  (k : fetched -> response) (up : upstream) (content : jsstring) :
  m3u8_proxy JSON_parse req = Fetch url opts k ->
  truthy (query_headers req) = true ->
  up_ok up = true ->
  up_text up = Ok content ->
  (exists l, In l (lines content) /\ segment_pattern l = true) ->
  status (k (Resolved up)) = 500 /\
  exists details,
    payload (k (Resolved up))
    = Json [(lit "error", lit "Failed to fetch M3U8"); (lit "details", details)] /\
    (details = lit "URI malformed" \/
     details = lit "Assignment to constant variable.").
Proof.
  intros H Hh Hok Htext Hline.
  apply m3u8_proxy_fetches in H. destruct H as (_ & _ & _ & ->).
  unfold manifest_after_fetch. cbn [await bind]. rewrite Hok, Htext.
  cbn [negb bind]. unfold rewrite_manifest, replace_segments.
  destruct (replace_throws (rewrite_callback req (base_of url))
              (fun e => e = uriMalformed \/ e = constAssignment)
              (lines content)) as (e & -> & He); [|exact Hline|].
  - intros l _.
    destruct (rewrite_callback_with_headers req (base_of url) l Hh) as [->| ->];
      eexists; split; eauto.
  - cbn [bind catch_all json_response status payload]. split; [reflexivity|].
    exists (message e). split; [reflexivity|].
    destruct He as [-> | ->]; [left | right]; reflexivity.
Qed.

Lemma headers_param_fails_rewrite_witness :
  let req := with_headers (lit "%7B%7D") sample_request in
  let r := respond_with (m3u8_proxy sample_parse req)
             (Resolved (upstream_of 200 (lit "OK") no_headers sample_playlist)) in
  segment_pattern (lit "seg0.ts") = true /\
  status r = 500 /\
  payload r = Json [(lit "error", lit "Failed to fetch M3U8");
                    (lit "details", lit "Assignment to constant variable.")].
Proof.
  intros req r. split; [reflexivity|].
  destruct (headers_param_fails_rewrite sample_parse req _ _ _
              (upstream_of 200 (lit "OK") no_headers sample_playlist)
              sample_playlist eq_refl eq_refl eq_refl eq_refl)
    as (H1 & d & H2 & _).
  - exists (lit "seg0.ts"). split; [vm_compute; tauto | reflexivity].
  - split; [exact H1 | reflexivity].
Defined.

(** ** The [url] parameter *)




(** ** The rewritten lines *)

Lemma rewrite_manifest_lines req baseUrl content out :
  rewrite_manifest req baseUrl content = Ok out ->
  exists outs,
    out = unlines outs (terminators content) /\
    Forall2 (fun l o => replace_line (rewrite_callback req baseUrl) l = Ok o)
            (lines content) outs.
Proof.
  unfold rewrite_manifest, replace_segments.
  destruct (mapM _ (lines content)) as [outs|] eqn:E; [|discriminate].
  cbn [bind]. intros [= <-]. exists outs. split; [reflexivity|].
  now apply mapM_Forall2.
Qed.

Lemma replace_line_passthrough f l o :
  segment_pattern l = false -> replace_line f l = Ok o -> o = l.
Proof. unfold replace_line. intros ->. now intros [= <-]. Qed.

(** A line the replacer returns is a link to [/ts-proxy] on the origin of
    the request, made without a [headers] parameter. *)
Lemma rewrite_callback_link req baseUrl line o :
  rewrite_callback req baseUrl line = Ok o ->
  truthy (query_headers req) = false /\
  exists e, encodeURIComponent (resolve baseUrl line) = Ok e /\
            o = origin req ++ lit "/ts-proxy?url=" ++ e.
Proof.
  intros H. destruct (truthy (query_headers req)) eqn:Hh.
  - destruct (rewrite_callback_with_headers req baseUrl line Hh); congruence.
  - split; [reflexivity|]. rewrite rewrite_callback_plain in H by exact Hh.
    destruct (encodeURIComponent (resolve baseUrl line)) as [e|]; [|discriminate].
    injection H as <-. now exists e.
Qed.

Lemma well_formed_resolve baseUrl line :
  well_formed baseUrl = true -> well_formed line = true ->
  well_formed (resolve baseUrl line) = true.
Proof.
  intros Hb Hl. unfold resolve. apply well_formed_trim in Hl.
  destruct (startsWith (trim line) (lit "http")); cbn [negb]; [exact Hl|].
  now apply well_formed_app.
Qed.

Lemma uriChar_plain s : Forall isUriChar s -> plain_line s.
Proof.
  unfold plain_line. apply Forall_impl. intros c Hc.
  apply uriChar_not_trimmable in Hc.
  destruct (isLineTerminator c) eqn:E; [|reflexivity].
  apply terminator_trimmable in E. congruence.
Qed.

Lemma lit_uriChars_link : Forall isUriChar (lit "/ts-proxy?url=").
Proof.
  apply Forall_forall. intros c Hc.
  assert (forallb (fun c => (33 <=? c) && (c <=? 126)) (lit "/ts-proxy?url=") = true)
    as H by reflexivity.
  rewrite forallb_forall in H. specialize (H c Hc).
  unfold isUriChar. bool_hyps. lia.
Qed.

Lemma plain_protocol p : plain_line (protocol_name p ++ lit "://").
Proof.
  apply Forall_forall. intros c Hc.
  assert (forallb (fun c => negb (isLineTerminator c)) (protocol_name p ++ lit "://") = true)
    as H by (destruct p; reflexivity).
  rewrite forallb_forall in H. specialize (H c Hc).
  now apply negb_true_iff in H.
Qed.

(** With a host free of line terminators, a link is one line. *)
Lemma link_plain req e :
  plain_line (stringOr "undefined" (req_host req)) ->
  Forall isUriChar e ->
  plain_line (origin req ++ lit "/ts-proxy?url=" ++ e).
Proof.
  intros Hhost He. unfold origin. rewrite <- !app_assoc.
  rewrite (app_assoc (protocol_name _) (lit "://")).
  apply Forall_app. split; [apply plain_protocol|].
  apply Forall_app. split; [exact Hhost|].
  apply Forall_app. split; [apply (uriChar_plain _ lit_uriChars_link)|].
  now apply uriChar_plain.
Qed.

(** A link is left as it is by [trim] and begins with [http]. *)
Lemma link_trim req e :
  Forall isUriChar e ->
  let o := origin req ++ lit "/ts-proxy?url=" ++ e in
  trim o = o /\ startsWith o (lit "http") = true.
Proof.
  intros He o.
  assert (exists m d, o = 104 :: m ++ [d] /\ isTrimmable d = false)
    as (m & d & Ho & Hd).
  { assert (Forall isUriChar (lit "/ts-proxy?url=" ++ e)) as Hs
      by (apply Forall_app; split; [apply lit_uriChars_link | exact He]).
    destruct (exists_last (l := lit "/ts-proxy?url=" ++ e)) as (m & d & Hm);
      [discriminate|].
    rewrite Hm in Hs. apply Forall_app in Hs. destruct Hs as [_ Hs].
    inversion Hs; subst.
    subst o. unfold origin. rewrite Hm.
    destruct (req_protocol req); cbn [protocol_name];
      eexists; exists d; (split; [|now apply uriChar_not_trimmable]);
      rewrite !app_assoc; reflexivity. }
  split.
  - unfold trim. rewrite Ho, trimStart_keeps by reflexivity.
    change (104 :: m ++ [d]) with ((104 :: m) ++ [d]).
    now apply trimEnd_keeps.
  - subst o. unfold origin. destruct (req_protocol req); reflexivity.
Qed.

Lemma resolve_link req e baseUrl :
  Forall isUriChar e ->
  resolve baseUrl (origin req ++ lit "/ts-proxy?url=" ++ e)
  = origin req ++ lit "/ts-proxy?url=" ++ e.
Proof.
  intros He. destruct (link_trim req e He) as [Ht Hs].
  unfold resolve. now rewrite Ht, Hs.
Qed.

Lemma Forall2_nth_error {A B} (R : A -> B -> Prop) l l' :
  Forall2 R l l' ->
  forall i x, nth_error l i = Some x -> exists y, nth_error l' i = Some y /\ R x y.
Proof.
  induction 1 as [|a b l l' Hab _ IH]; intros [|i] x; simpl; try discriminate.
  - intros [= <-]. now exists b.
  - apply IH.
Qed.

Lemma lastIndexOf_from_absent c s : forall i, ~ In c s -> lastIndexOf_from i c s = -1.
Proof.
  induction s as [|x s IH]; intros i H; [reflexivity|].
  cbn [lastIndexOf_from]. rewrite IH by (intros ?; apply H; now right).
  replace (0 <=? -1) with false by reflexivity.
  destruct (Z.eqb_spec x c) as [->|]; [|reflexivity].
  exfalso. apply H. now left.
Qed.

Lemma lastIndexOf_from_last c q :
  ~ In c q ->
  forall p i, 0 <= i ->
    lastIndexOf_from i c (p ++ c :: q) = i + Z.of_nat (List.length p).
Proof.
  intros Hq. induction p as [|x p IH]; intros i Hi.
  - cbn [app lastIndexOf_from]. rewrite lastIndexOf_from_absent by exact Hq.
    replace (0 <=? -1) with false by reflexivity.
    rewrite Z.eqb_refl. simpl. lia.
  - cbn [app lastIndexOf_from]. rewrite IH by lia.
    destruct (Z.leb_spec 0 (i + 1 + Z.of_nat (List.length p))); [|lia].
    simpl List.length. lia.
Qed.

(** The base of a URL is what it has up to and including its last [/]. *)
Lemma base_of_last_slash p q :
  ~ In 47 q -> base_of (p ++ [47] ++ q) = p ++ [47].
Proof.
  intros Hq. unfold base_of, lastIndexOf, substring0. cbn [app].
  rewrite lastIndexOf_from_last by (auto; lia).
  replace (Z.to_nat (0 + Z.of_nat (List.length p) + 1))
    with (List.length (p ++ [47%Z]) + 0)%nat
    by (rewrite length_app; simpl; lia).
  change (p ++ 47 :: q) with (p ++ [47] ++ q). rewrite app_assoc.
  rewrite firstn_app_2. simpl. apply app_nil_r.
Qed.

Lemma rewritten_line_cases req baseUrl l o :
  replace_line (rewrite_callback req baseUrl) l = Ok o ->
  (segment_pattern l = false /\ o = l) \/
  (segment_pattern l = true /\
   truthy (query_headers req) = false /\
   exists e, encodeURIComponent (resolve baseUrl l) = Ok e /\
             o = origin req ++ lit "/ts-proxy?url=" ++ e).
Proof.
  intros H. destruct (segment_pattern l) eqn:E.
  - right. split; [reflexivity|].
    unfold replace_line in H. rewrite E in H.
    now apply rewrite_callback_link.
  - left. split; [reflexivity|]. now apply (replace_line_passthrough _ _ _ E H).
Qed.

(** For well-formed text and a host free of line terminators, the lines the
    rewrite returns are the lines of the text it returns. *)
Lemma rewritten_lines_split req baseUrl content outs :
  Forall2 (fun l o => replace_line (rewrite_callback req baseUrl) l = Ok o)
          (lines content) outs ->
  well_formed content = true ->
  well_formed baseUrl = true ->
  plain_line (stringOr "undefined" (req_host req)) ->
  lines (unlines outs (terminators content)) = outs /\
  terminators (unlines outs (terminators content)) = terminators content.
Proof.
  intros H Hc Hb Hhost.
  apply lines_unlines.
  - pose proof (lines_plain content) as Hp.
    pose proof (well_formed_lines content Hc) as Hw.
    induction H as [|l o ls outs Hlo _ IH]; [constructor|].
    inversion Hp; subst. inversion Hw; subst.
    constructor; [|now apply IH].
    destruct (rewritten_line_cases _ _ _ _ Hlo)
      as [[_ ->]|(_ & _ & e & He & ->)]; [assumption|].
    apply link_plain; [exact Hhost|].
    apply (encode_chars (resolve baseUrl l)); [|exact He].
    now apply well_formed_resolve.
  - apply terminators_all.
  - rewrite <- (Forall2_length H). apply lines_length.
Qed.

(** ** Lines that pass through *)

(** C9.  When the rewrite returns a text, that text is made of as many
    lines as the manifest, with the same line terminators, and a line that
    begins with [#], or has no [.ts], stands unchanged at its index.  For
    well-formed text and a host free of line terminators these are the
    lines of the returned text. *)
Theorem passthrough_lines_unchanged
  (req : request) (baseUrl content out : jsstring) :
  rewrite_manifest req baseUrl content = Ok out ->
  exists outs,
    out = unlines outs (terminators content) /\
    List.length outs = List.length (lines content) /\
    (forall i l,
        nth_error (lines content) i = Some l ->
        startsWith l (lit "#") = true \/ includes l (lit ".ts") = false ->
        nth_error outs i = Some l) /\
    (well_formed content = true ->
     well_formed baseUrl = true ->
     plain_line (stringOr "undefined" (req_host req)) ->
     lines out = outs /\ terminators out = terminators content).
Proof.
  intros H. destruct (rewrite_manifest_lines _ _ _ _ H) as (outs & -> & HF).
  exists outs. split; [reflexivity|]. split; [symmetry; apply (Forall2_length HF)|].
  split.
  - intros i l Hi Hpass.
    destruct (Forall2_nth_error _ _ _ HF i l Hi) as (o & Ho & Hlo).
    apply passthrough_not_segment in Hpass.
    now rewrite (replace_line_passthrough _ _ _ Hpass Hlo) in Ho.
  - intros Hc Hb Hhost. now apply (rewritten_lines_split req baseUrl).
Qed.

Lemma sample_host_plain : plain_line (lit "relay.example").
Proof.
  apply Forall_forall. intros c Hc.
  assert (forallb (fun c => negb (isLineTerminator c)) (lit "relay.example") = true)
    as H by reflexivity.
  rewrite forallb_forall in H. specialize (H c Hc).
  now apply negb_true_iff in H.
Defined.

Lemma passthrough_lines_unchanged_witness :
  rewrite_manifest sample_request (lit "http://cdn.example/a/") sample_playlist
  = Ok sample_rewritten /\
  nth_error (lines sample_playlist) 3 = Some (lit "#EXTINF:10.0,") /\
  nth_error (lines sample_rewritten) 3 = Some (lit "#EXTINF:10.0,").
Proof.
  split; [reflexivity|]. split; [reflexivity|].
  destruct (passthrough_lines_unchanged sample_request (lit "http://cdn.example/a/")
              sample_playlist sample_rewritten eq_refl)
    as (outs & _ & _ & Hpass & Hsplit).
  destruct (Hsplit eq_refl eq_refl sample_host_plain) as [-> _].
  apply Hpass; [reflexivity | left; reflexivity].
Defined.

(** ** Rewriting twice *)

Lemma rewritten_segment_resolves req baseUrl ls outs :
  Forall2 (fun l o => replace_line (rewrite_callback req baseUrl) l = Ok o) ls outs ->
  Forall (fun l => well_formed l = true) ls ->
  well_formed baseUrl = true ->
  forall o baseUrl2,
    In o outs -> segment_pattern o = true -> resolve baseUrl2 o = o.
Proof.
  intros HF Hw Hb o baseUrl2.
  induction HF as [|l o' ls outs Hlo _ IH]; intros Hin Hseg; [destruct Hin|].
  inversion Hw; subst.
  destruct Hin as [->|Hin]; [|now apply IH].
  destruct (rewritten_line_cases _ _ _ _ Hlo)
    as [[Hn ->]|(_ & _ & e & He & ->)]; [congruence|].
  apply resolve_link.
  apply (encode_chars (resolve baseUrl l)); [|exact He].
  now apply well_formed_resolve.
Qed.

(** C3.  A reference whose trimmed text begins with [http] goes into the
    link percent-encoded and otherwise as it is, with no [baseUrl] before
    it.  In a manifest the rewrite has returned (well-formed text, a host
    free of line terminators), every line the pattern matches is such a
    reference: run again, with any base, the rewrite puts no base before
    it. *)
Theorem rewrite_never_prefixes_twice
  (req : request) (baseUrl content out : jsstring) :
  (forall line,
      truthy (query_headers req) = false ->
      startsWith (trim line) (lit "http") = true ->
      rewrite_callback req baseUrl line
      = (e <- encodeURIComponent (trim line);;
         Ok (origin req ++ lit "/ts-proxy?url=" ++ e))) /\
  (rewrite_manifest req baseUrl content = Ok out ->
   well_formed content = true ->
   well_formed baseUrl = true ->
   plain_line (stringOr "undefined" (req_host req)) ->
   forall (req2 : request) (baseUrl2 line2 : jsstring),
     In line2 (lines out) ->
     segment_pattern line2 = true ->
     resolve baseUrl2 line2 = line2 /\
     (truthy (query_headers req2) = false ->
      rewrite_callback req2 baseUrl2 line2
      = (e <- encodeURIComponent line2;;
         Ok (origin req2 ++ lit "/ts-proxy?url=" ++ e)))).
Proof.
  split.
  - intros line Hh Hs. rewrite rewrite_callback_plain by exact Hh.
    unfold resolve. now rewrite Hs.
  - intros H Hc Hb Hhost req2 baseUrl2 line2 Hin Hseg.
    destruct (rewrite_manifest_lines _ _ _ _ H) as (outs & -> & HF).
    destruct (rewritten_lines_split _ _ _ _ HF Hc Hb Hhost) as [Hl _].
    rewrite Hl in Hin.
    assert (resolve baseUrl2 line2 = line2) as Hres.
    { apply (rewritten_segment_resolves req baseUrl (lines content) outs);
        auto using well_formed_lines. }
    split; [exact Hres|].
    intros Hh. rewrite rewrite_callback_plain by exact Hh. now rewrite Hres.
Qed.

Lemma rewrite_never_prefixes_twice_witness :
  let link := lit "http://relay.example/ts-proxy?url=http%3A%2F%2Fcdn.example%2Fa%2Fseg0.ts" in
  In link (lines sample_rewritten) /\
  segment_pattern link = true /\
  resolve (lit "http://relay.example/") link = link.
Proof.
  intros link.
  assert (In link (lines sample_rewritten)) as Hin by (vm_compute; tauto).
  split; [exact Hin|]. split; [reflexivity|].
  destruct (rewrite_never_prefixes_twice sample_request
              (lit "http://cdn.example/a/") sample_playlist sample_rewritten)
    as [_ H].
  exact (proj1 (H eq_refl eq_refl eq_refl sample_host_plain
                  sample_request (lit "http://relay.example/") link Hin eq_refl)).
Defined.

(** ** The rewrite of segment lines *)

Lemma rewrite_lines_exist req baseUrl ls :
  truthy (query_headers req) = false ->
  well_formed baseUrl = true ->
  Forall (fun l => well_formed l = true) ls ->
  exists outs,
    Forall2
      (fun l o =>
         replace_line (rewrite_callback req baseUrl) l = Ok o /\
         if segment_pattern l then
           exists e, o = origin req ++ lit "/ts-proxy?url=" ++ e /\
                     encodeURIComponent (resolve baseUrl l) = Ok e /\
                     decodeURIComponent e = Ok (resolve baseUrl l)
         else o = l)
      ls outs.
Proof.
  intros Hh Hb. induction 1 as [|l ls Hl _ (outs & IH)]; [exists []; constructor|].
  unfold replace_line. destruct (segment_pattern l) eqn:E.
  - destruct (decode_encode (resolve baseUrl l)) as (e & He & Hd);
      [now apply well_formed_resolve|].
    exists ((origin req ++ lit "/ts-proxy?url=" ++ e) :: outs).
    constructor; [|exact IH]. rewrite E. split.
    + rewrite rewrite_callback_plain by exact Hh. now rewrite He.
    + now exists e.
  - exists (l :: outs). constructor; [|exact IH]. rewrite E. now split.
Qed.

Lemma trimStart_head s c r : trimStart s = c :: r -> isTrimmable c = false.
Proof.
  induction s as [|x s IH]; simpl; [discriminate|].
  destruct (isTrimmable x) eqn:E; [exact IH|]. now intros [= <- _].
Qed.

(** [trim] spelled out: it takes units it strips off both ends, and what
    it returns neither begins nor ends with such a unit. *)
Lemma trim_spec l :
  exists ws ws',
    l = ws ++ trim l ++ ws' /\
    Forall (fun c => isTrimmable c = true) ws /\
    Forall (fun c => isTrimmable c = true) ws' /\
    (forall c t, trim l = c :: t -> isTrimmable c = false) /\
    (forall t c, trim l = t ++ [c] -> isTrimmable c = false).
Proof.
  destruct (trimStart_split l) as (ws & Hl & Hws).
  destruct (trimEnd_split (trimStart l)) as (ws' & Hl' & Hws').
  exists ws, ws'. fold (trim l) in Hl'.
  split; [now rewrite <- Hl'|]. split; [exact Hws|]. split; [exact Hws'|].
  split.
  - intros c t Ht. rewrite Ht in Hl'. now apply (trimStart_head _ _ _ Hl').
  - intros t c Ht. unfold trim, trimEnd in Ht.
    apply (f_equal (@rev Z)) in Ht.
    rewrite rev_involutive, rev_app_distr in Ht. simpl in Ht.
    now apply (trimStart_head _ _ _ Ht).
Qed.

Lemma Forall2_inv_cons {A B} (R : A -> B -> Prop) x l l' :
  Forall2 R (x :: l) l' ->
  exists y l'', l' = y :: l'' /\ R x y /\ Forall2 R l l''.
Proof. intros H. inversion H; subst. eauto. Qed.

Lemma Forall2_inv_nil {A B} (R : A -> B -> Prop) l' :
  Forall2 R [] l' -> l' = [].
Proof. intros H. now inversion H. Qed.

(** C2 as stated fails on the manifest [.ts]: its one line is no comment
    and contains [.ts], and the response carries it unchanged. *)
Lemma leading_ts_line_not_rewritten :
  lines (lit ".ts") = [lit ".ts"] /\
  segment_line_as_stated (lit ".ts") = true /\
  respond_with (m3u8_proxy sample_parse sample_request)
    (Resolved (upstream_of 200 (lit "OK") no_headers (lit ".ts")))
  = {| status := 200; fields := manifest_fields; payload := Text (lit ".ts") |}.
Proof. repeat split. Qed.

(** C2, as the code has it.  Without a [headers] parameter, on a 2xx
    upstream answer whose text is well formed, [/m3u8-proxy] responds 200
    with the manifest in which every line that does not begin with [#] and
    has [.ts] after at least one unit is replaced by
    [<origin>/ts-proxy?url=<e>]: [<e>] is the percent-encoding of the
    target and percent-decodes to it, the target being the trimmed line
    when that begins with [http] and [baseUrl] followed by the trimmed
    line otherwise; every other line is unchanged.  [baseUrl] is the
    decoded URL up to and including its last [/]; the origin is the
    protocol, [://] and the host of the request; trimming takes white
    space off both ends and nothing else. *)
Theorem segment_lines_rewritten
  (JSON_parse : jsstring -> completion jsvalue)
  (req : request) (url : jsstring) (opts : fetch_options)
  (k : fetched -> response) (up : upstream) (content : jsstring) :
  m3u8_proxy JSON_parse req = Fetch url opts k ->
  truthy (query_headers req) = false ->
  up_ok up = true ->
  up_text up = Ok content ->
  well_formed content = true ->
  well_formed url = true ->
  (exists outs,
     k (Resolved up)
     = {| status := 200; fields := manifest_fields;
          payload := Text (unlines outs (terminators content)) |} /\
     Forall2
       (fun l o =>
          if segment_pattern l then
            exists e,
              o = origin req ++ lit "/ts-proxy?url=" ++ e /\
              let reference := trim l in
              let target :=
                if startsWith reference (lit "http") then reference
                else base_of url ++ reference in
              encodeURIComponent target = Ok e /\
              decodeURIComponent e = Ok target
          else o = l)
       (lines content) outs) /\
  (forall p q, url = p ++ [47] ++ q -> ~ In 47 q -> base_of url = p ++ [47]) /\
  (forall l, segment_pattern l = true <->
             startsWith l (lit "#") = false /\
             exists c a b, l = c :: a ++ lit ".ts" ++ b) /\
  (forall l, exists ws ws',
      l = ws ++ trim l ++ ws' /\
      Forall (fun c => isTrimmable c = true) ws /\
      Forall (fun c => isTrimmable c = true) ws' /\
      (forall c t, trim l = c :: t -> isTrimmable c = false) /\
      (forall t c, trim l = t ++ [c] -> isTrimmable c = false)) /\
  origin req
  = match req_protocol req with Http => lit "http" | Https => lit "https" end
    ++ lit "://"
    ++ match req_host req with Some h => h | None => lit "undefined" end.
Proof.
  intros H Hh Hok Htext Hc Hu.
  split; [|split;
           [intros p q -> Hq; now apply base_of_last_slash
           |split; [apply segment_pattern_iff
                   |split; [apply trim_spec
                           |unfold origin; now destruct (req_protocol req),
                                                        (req_host req)]]]].
  apply m3u8_proxy_fetches in H. destruct H as (_ & _ & _ & ->).
  unfold manifest_after_fetch. cbn [await bind]. rewrite Hok, Htext.
  cbn [negb bind]. unfold rewrite_manifest, replace_segments.
  pose proof (well_formed_base url Hu) as Hb.
  pose proof (well_formed_lines content Hc) as Hw.
  destruct (rewrite_lines_exist req (base_of url) (lines content) Hh Hb Hw)
    as (outs & HF).
  exists outs. split.
  - rewrite (Forall2_mapM _ _ outs).
    + reflexivity.
    + eapply Forall2_impl; [|exact HF]. now intros l o [? _].
  - eapply Forall2_impl; [|exact HF]. intros l o [_ Hlo].
    destruct (segment_pattern l); [|exact Hlo].
    destruct Hlo as (e & Ho & He & Hd). exists e. split; [exact Ho|].
    cbv zeta. unfold resolve in He, Hd.
    destruct (startsWith (trim l) (lit "http")); now split.
Qed.

Lemma segment_lines_rewritten_witness :
  let up := upstream_of 200 (lit "OK") no_headers sample_playlist in
  well_formed sample_playlist = true /\
  well_formed (lit "http://cdn.example/a/index.m3u8") = true /\
  respond_with (m3u8_proxy sample_parse sample_request) (Resolved up)
  = {| status := 200; fields := manifest_fields;
       payload := Text sample_rewritten |}.
Proof.
  intros up. split; [reflexivity|]. split; [reflexivity|].
  destruct (segment_lines_rewritten sample_parse sample_request
              (lit "http://cdn.example/a/index.m3u8") _ _ up
              sample_playlist eq_refl eq_refl eq_refl eq_refl eq_refl eq_refl)
    as ((outs & H & HF) & _).
  change (lines sample_playlist)
    with [lit "#EXTM3U"; lit "#EXTINF:10.0,"; lit "seg0.ts";
          lit "#EXTINF:10.0,"; lit "http://other.cdn/seg1.ts"] in HF.
  apply Forall2_inv_cons in HF. destruct HF as (o1 & r1 & -> & H1 & HF).
  apply Forall2_inv_cons in HF. destruct HF as (o2 & r2 & -> & H2 & HF).
  apply Forall2_inv_cons in HF. destruct HF as (o3 & r3 & -> & H3 & HF).
  apply Forall2_inv_cons in HF. destruct HF as (o4 & r4 & -> & H4 & HF).
  apply Forall2_inv_cons in HF. destruct HF as (o5 & r5 & -> & H5 & HF).
  apply Forall2_inv_nil in HF. subst r5.
  change (o1 = lit "#EXTM3U") in H1.
  change (o2 = lit "#EXTINF:10.0,") in H2.
  change (o4 = lit "#EXTINF:10.0,") in H4.
  subst o1 o2 o4.
  assert (segment_pattern (lit "seg0.ts") = true) as Hs3 by reflexivity.
  assert (segment_pattern (lit "http://other.cdn/seg1.ts") = true) as Hs5
    by reflexivity.
  cbv beta in H3, H5. rewrite Hs3 in H3. rewrite Hs5 in H5.
  destruct H3 as (e3 & -> & He3 & _). destruct H5 as (e5 & -> & He5 & _).
  assert (e3 = lit "http%3A%2F%2Fcdn.example%2Fa%2Fseg0.ts") as ->.
  { match type of He3 with
    | ?enc = _ =>
        assert (enc = Ok (lit "http%3A%2F%2Fcdn.example%2Fa%2Fseg0.ts")) as E
          by (vm_compute; reflexivity)
    end.
    rewrite E in He3. now injection He3. }
  assert (e5 = lit "http%3A%2F%2Fother.cdn%2Fseg1.ts") as ->.
  { match type of He5 with
    | ?enc = _ =>
        assert (enc = Ok (lit "http%3A%2F%2Fother.cdn%2Fseg1.ts")) as E
          by (vm_compute; reflexivity)
    end.
    rewrite E in He5. now injection He5. }
  exact H.
Defined.

(** * Further properties *)

(** ** Header overrides *)

Lemma jsstring_eqb_eq a b : jsstring_eqb a b = true <-> a = b.
Proof.
  revert b. induction a as [|x a IH]; intros [|y b]; simpl;
    try (split; [discriminate | intros [=]]); try tauto.
  rewrite andb_true_iff, Z.eqb_eq, IH. split.
  - now intros [-> ->].
  - now intros [= -> ->].
Qed.

Lemma jsstring_eqb_refl a : jsstring_eqb a a = true.
Proof. now apply jsstring_eqb_eq. Qed.

Lemma jsstring_eqb_neq a b : a <> b -> jsstring_eqb a b = false.
Proof.
  intros H. destruct (jsstring_eqb a b) eqn:E; [|reflexivity].
  now apply jsstring_eqb_eq in E.
Qed.

Lemma get_set_property o k v k' :
  get_property (set_property o k v) k'
  = if jsstring_eqb k k' then Some v else get_property o k'.
Proof.
  induction o as [|[k0 v0] o IH]; simpl.
  - reflexivity.
  - destruct (jsstring_eqb k0 k) eqn:E0; simpl.
    + apply jsstring_eqb_eq in E0. subst k0.
      now destruct (jsstring_eqb k k').
    + destruct (jsstring_eqb k0 k') eqn:E1; [|exact IH].
      apply jsstring_eqb_eq in E1. subst k0.
      destruct (jsstring_eqb k k') eqn:E2; [|reflexivity].
      apply jsstring_eqb_eq in E2. subst k'.
      rewrite jsstring_eqb_refl in E0. discriminate.
Qed.

Lemma get_property_app o o' k :
  get_property (o ++ o') k
  = match get_property o k with
    | Some x => Some x
    | None => get_property o' k
    end.
Proof.
  induction o as [|[k0 v0] o IH]; simpl; [reflexivity|].
  now destruct (jsstring_eqb k0 k).
Qed.

Lemma fold_set_property ps : forall o k,
  get_property
    (fold_left (fun acc kv => set_property acc (fst kv) (snd kv)) ps o) k
  = match get_property (rev ps) k with
    | Some x => Some x
    | None => get_property o k
    end.
Proof.
  induction ps as [|[k1 v1] ps IH]; intros o k; simpl; [reflexivity|].
  rewrite IH, get_property_app, get_set_property. simpl.
  destruct (get_property (rev ps) k); [reflexivity|].
  now destruct (jsstring_eqb k1 k).
Qed.

(** What [{ ...o, ...v }] holds under a name: what [v] has there, and
    what [o] has where [v] has nothing. *)
Lemma spread_lookup o v k :
  get_property (spread o v) k
  = match copied_property v k with
    | Some x => Some x
    | None => get_property o k
    end.
Proof. apply fold_set_property. Qed.

(** X1.  When the [headers] parameter decodes and parses, each handler
    fetches with its defaults overlaid by the parsed value: under every
    name the fetch headers hold what the parsed value has there, and the
    default where the parsed value has nothing; no default is dropped. *)
Theorem header_overrides_win
  (JSON_parse : jsstring -> completion jsvalue)
  (req : request) (raw text url : jsstring) (v : jsvalue) :
  query_headers req = Some raw ->
  raw <> [] ->
  decodeURIComponent raw = Ok text ->
  JSON_parse text = Ok v ->
  truthy (query_url req) = true ->
  decodeURIComponent (stringOr "undefined" (query_url req)) = Ok url ->
  exists om km os ks,
    m3u8_proxy JSON_parse req = Fetch url om km /\
    ts_proxy JSON_parse req = Fetch url os ks /\
    forall name,
      get_property (fo_headers om) name
      = match copied_property v name with
        | Some x => Some x
        | None => get_property manifest_defaults name
        end /\
      get_property (fo_headers os) name
      = match copied_property v name with
        | Some x => Some x
        | None => get_property (segment_defaults req) name
        end /\
      (get_property manifest_defaults name <> None ->
       get_property (fo_headers om) name <> None).
Proof.
  intros Hraw Hne Hdec Hparse Hurl Hdurl.
  assert (request_headers JSON_parse req = v) as Hrh.
  { unfold request_headers. rewrite Hraw. cbn [stringOr].
    destruct raw; [now destruct Hne|]. cbn [truthy].
    rewrite Hdec. cbn [bind]. now rewrite Hparse. }
  unfold m3u8_proxy, ts_proxy. rewrite Hurl, Hdurl, Hrh. cbn [negb].
  do 4 eexists. split; [reflexivity|]. split; [reflexivity|].
  intros name. cbn [fo_headers]. rewrite !spread_lookup.
  repeat split.
  destruct (copied_property v name); [discriminate | trivial].
Qed.

Lemma header_overrides_win_witness :
  let req := with_headers override_text sample_request in
  exists om km,
    m3u8_proxy override_parse req
    = Fetch (lit "http://cdn.example/a/index.m3u8") om km /\
    get_property (fo_headers om) (lit "Accept") = Some (VString (lit "video/*")) /\
    get_property (fo_headers om) (lit "Connection")
    = Some (VString (lit "keep-alive")).
Proof.
  intros req.
  destruct (header_overrides_win override_parse req override_text override_text
              (lit "http://cdn.example/a/index.m3u8")
              (VObject [(lit "Accept", VString (lit "video/*"))])
              eq_refl ltac:(discriminate) eq_refl eq_refl eq_refl eq_refl)
    as (om & km & os & ks & H1 & _ & H3).
  exists om, km. split; [exact H1|]. split.
  - exact (proj1 (H3 (lit "Accept"))).
  - exact (proj1 (H3 (lit "Connection"))).
Defined.

(** ** The [Range] header *)

Lemma segment_defaults_range req :
  get_property (segment_defaults req) (lit "Range")
  = Some (if truthy (req_range req)
          then VString (stringOr "undefined" (req_range req))
          else VUndefined).
Proof. reflexivity. Qed.

(** X2.  The fetch of [/ts-proxy] carries under [Range] what the parsed
    [headers] value has under that name, if anything; otherwise the
    inbound [Range] header when there is a non-empty one; otherwise the
    property is there with the value [undefined]. *)
Theorem segment_fetch_range
  (JSON_parse : jsstring -> completion jsvalue)
  (req : request) (url : jsstring) (opts : fetch_options)
  (k : fetched -> response) :
  ts_proxy JSON_parse req = Fetch url opts k ->
  let header := get_property (fo_headers opts) (lit "Range") in
  let copied := copied_property (request_headers JSON_parse req) (lit "Range") in
  (forall x, copied = Some x -> header = Some x) /\
  (copied = None ->
   forall r, req_range req = Some r -> r <> [] -> header = Some (VString r)) /\
  (copied = None ->
   req_range req = None \/ req_range req = Some [] ->
   header = Some VUndefined).
Proof.
  intros H header copied. subst header copied.
  apply ts_proxy_fetches in H. destruct H as (_ & _ & -> & _).
  cbn [fo_headers]. rewrite spread_lookup, segment_defaults_range.
  split; [|split].
  - now intros x ->.
  - intros -> r Hr Hne. rewrite Hr.
    destruct r; [now destruct Hne | reflexivity].
  - intros -> [Hr|Hr]; rewrite Hr; reflexivity.
Qed.

Lemma segment_fetch_range_witness :
  let req := with_range (Some (lit "bytes=0-999")) sample_request in
  exists url opts k,
    ts_proxy sample_parse req = Fetch url opts k /\
    get_property (fo_headers opts) (lit "Range")
    = Some (VString (lit "bytes=0-999")).
Proof.
  intros req.
  destruct (segment_fetch_range sample_parse req _ _ _ eq_refl) as (_ & H & _).
  eexists _, _, _. split; [reflexivity|].
  exact (H eq_refl (lit "bytes=0-999") eq_refl ltac:(discriminate)).
Defined.

(** X3.  [/m3u8-proxy] never reads the inbound [Range] header: the
    handling is the same whatever that header is, and its fetch has a
    [Range] only if the parsed [headers] value supplies one. *)
Theorem manifest_never_forwards_range
  (JSON_parse : jsstring -> completion jsvalue)
  (req : request) (r : option jsstring) :
  m3u8_proxy JSON_parse (with_range r req) = m3u8_proxy JSON_parse req /\
  forall url opts k,
    m3u8_proxy JSON_parse req = Fetch url opts k ->
    get_property (fo_headers opts) (lit "Range")
    = copied_property (request_headers JSON_parse req) (lit "Range").
Proof.
  split; [reflexivity|].
  intros url opts k H.
  apply m3u8_proxy_fetches in H. destruct H as (_ & _ & -> & _).
  cbn [fo_headers]. rewrite spread_lookup.
  now destruct (copied_property _ _).
Qed.

Lemma manifest_never_forwards_range_witness :
  exists url opts k,
    m3u8_proxy sample_parse (with_range (Some (lit "bytes=0-999")) sample_request)
    = Fetch url opts k /\
    get_property (fo_headers opts) (lit "Range") = None.
Proof.
  destruct (manifest_never_forwards_range sample_parse
              (with_range (Some (lit "bytes=0-999")) sample_request) None)
    as [_ H].
  eexists _, _, _. split; [reflexivity|].
  exact (H _ _ _ eq_refl).
Defined.

(** ** Empty parameters *)

(** X4.  An empty [url] parameter is answered like a missing one: 400 at
    once, with no fetch, by either handler. *)
Theorem empty_url_is_400
  (JSON_parse : jsstring -> completion jsvalue) (req : request) :
  query_url req = Some [] ->
  m3u8_proxy JSON_parse req = Respond missing_url /\
  ts_proxy JSON_parse req = Respond missing_url.
Proof.
  intros H. unfold m3u8_proxy, ts_proxy. rewrite H. split; reflexivity.
Qed.

Lemma empty_url_is_400_witness :
  m3u8_proxy sample_parse (with_url (Some []) sample_request)
  = Respond missing_url.
Proof.
  exact (proj1 (empty_url_is_400 sample_parse
                  (with_url (Some []) sample_request) eq_refl)).
Defined.

Lemma mapM_ext {A B} (f g : A -> completion B) l :
  (forall x, f x = g x) -> mapM f l = mapM g l.
Proof.
  intros H. induction l as [|x l IH]; simpl; [reflexivity|].
  now rewrite H, IH.
Qed.

Lemma rewrite_manifest_ext req req' baseUrl content :
  (forall l, rewrite_callback req baseUrl l = rewrite_callback req' baseUrl l) ->
  rewrite_manifest req baseUrl content = rewrite_manifest req' baseUrl content.
Proof.
  intros H. unfold rewrite_manifest, replace_segments.
  rewrite (mapM_ext (replace_line (rewrite_callback req baseUrl))
                    (replace_line (rewrite_callback req' baseUrl))).
  - reflexivity.
  - intros l. unfold replace_line. now rewrite H.
Qed.

(** X5.  An empty [headers] parameter is the same as none: either handler
    makes the same fetch and gives the same response to each outcome as
    for the request without the parameter. *)
Theorem empty_headers_as_absent
  (JSON_parse : jsstring -> completion jsvalue) (req : request) :
  query_headers req = Some [] ->
  same_handling (m3u8_proxy JSON_parse req)
                (m3u8_proxy JSON_parse (without_headers req)) /\
  same_handling (ts_proxy JSON_parse req)
                (ts_proxy JSON_parse (without_headers req)).
Proof.
  intros H.
  assert (request_headers JSON_parse req = VObject []) as Hrh
    by (unfold request_headers; now rewrite H).
  unfold m3u8_proxy, ts_proxy. cbn [without_headers query_url].
  rewrite Hrh. cbn [request_headers without_headers query_headers truthy].
  destruct (truthy (query_url req)); cbn [negb same_handling];
    [|split; reflexivity].
  destruct (decodeURIComponent _) as [url|e]; cbn [same_handling];
    [|split; reflexivity].
  split; (split; [reflexivity|]); (split; [reflexivity|]);
    intros outcome; [|reflexivity].
  unfold manifest_after_fetch. destruct outcome as [up|e]; cbn [await bind];
    [|reflexivity].
  destruct (up_ok up); cbn [negb]; [|reflexivity].
  destruct (up_text up) as [content|e]; cbn [bind]; [|reflexivity].
  rewrite (rewrite_manifest_ext req (without_headers req)); [reflexivity|].
  intros l. rewrite !rewrite_callback_plain;
    [reflexivity | reflexivity | now rewrite H].
Qed.

Lemma empty_headers_as_absent_witness :
  respond_with (m3u8_proxy sample_parse (with_headers [] sample_request))
    (Resolved (upstream_of 200 (lit "OK") no_headers sample_playlist))
  = {| status := 200; fields := manifest_fields; payload := Text sample_rewritten |}.
Proof.
  destruct (empty_headers_as_absent sample_parse (with_headers [] sample_request)
              eq_refl) as [(_ & _ & H) _].
  exact (H (Resolved (upstream_of 200 (lit "OK") no_headers sample_playlist))).
Defined.

(** ** Manifests without segment lines *)

Lemma mapM_passthrough f ls :
  Forall (fun l => segment_pattern l = false) ls ->
  mapM (replace_line f) ls = Ok ls.
Proof.
  induction 1 as [|l ls Hl _ IH]; simpl; [reflexivity|].
  unfold replace_line at 1. now rewrite Hl, IH.
Qed.

(** X6.  A manifest none of whose lines the pattern matches, a master
    playlist of [.m3u8] references for one, is returned as it is, with or
    without a [headers] parameter: the replacer is never called. *)
Theorem manifest_without_segments_unchanged
  (JSON_parse : jsstring -> completion jsvalue)
  (req : request) (baseUrl content : jsstring) :
  Forall (fun l => segment_pattern l = false) (lines content) ->
  rewrite_manifest req baseUrl content = Ok content /\
  forall url opts k up,
    m3u8_proxy JSON_parse req = Fetch url opts k ->
    up_ok up = true ->
    up_text up = Ok content ->
    k (Resolved up)
    = {| status := 200; fields := manifest_fields; payload := Text content |}.
Proof.
  intros H.
  assert (forall b, rewrite_manifest req b content = Ok content) as Hrw.
  { intros b. unfold rewrite_manifest, replace_segments.
    rewrite mapM_passthrough by exact H. cbn [bind].
    now rewrite unlines_lines. }
  split; [apply Hrw|].
  intros url opts k up Hf Hok Htext.
  apply m3u8_proxy_fetches in Hf. destruct Hf as (_ & _ & _ & ->).
  unfold manifest_after_fetch. cbn [await bind].
  rewrite Hok, Htext. cbn [negb bind]. now rewrite Hrw.
Qed.

Lemma manifest_without_segments_unchanged_witness :
  let req := with_headers (lit "%7B%7D") sample_request in
  respond_with (m3u8_proxy sample_parse req)
    (Resolved (upstream_of 200 (lit "OK") no_headers master_playlist))
  = {| status := 200; fields := manifest_fields; payload := Text master_playlist |}.
Proof.
  intros req.
  assert (Forall (fun l => segment_pattern l = false) (lines master_playlist))
    as Hnone by (vm_compute; repeat constructor).
  destruct (manifest_without_segments_unchanged sample_parse req
              (lit "http://cdn.example/a/") master_playlist Hnone) as [_ H].
  exact (H _ _ _ (upstream_of 200 (lit "OK") no_headers master_playlist)
           eq_refl eq_refl eq_refl).
Defined.

(** ** The base of the playlist URL *)

(** X8.  [baseUrl] is a prefix of the decoded URL, and what it leaves off
    has no [/]; it is empty exactly when the URL has no [/], and otherwise
    ends with [/]; taking the base of a base changes nothing. *)
Theorem base_of_shape (url : jsstring) :
  (exists rest, url = base_of url ++ rest /\ ~ In 47 rest) /\
  (base_of url = [] <-> ~ In 47 url) /\
  (In 47 url -> exists p, base_of url = p ++ [47]) /\
  base_of (base_of url) = base_of url.
Proof.
  destruct (base_of_spec url) as [[Hn ->]|(p & q & -> & Hq & ->)].
  - split; [now exists url|]. split; [tauto|]. split; [tauto | reflexivity].
  - split; [exists q; split; [now rewrite <- app_assoc | exact Hq]|].
    split; [|split].
    + split; [now destruct p | intros H; exfalso; apply H].
      apply in_or_app. right. now left.
    + intros _. now exists p.
    + rewrite <- (app_nil_r (p ++ [47])) at 1. rewrite <- app_assoc.
      now apply base_of_last_slash.
Qed.

(** ** The [url] parameter of a link *)

Lemma hexDigit_unescaped n : 0 <= n < 16 -> uriUnescaped (hexDigit n) = true.
Proof.
  intros H. unfold uriUnescaped, isAlnum, hexDigit.
  destruct (Z.ltb_spec n 10).
  - apply orb_true_iff. left. apply orb_true_iff. left. apply orb_true_iff. left.
    apply andb_true_iff. split; apply Z.leb_le; lia.
  - apply orb_true_iff. left. apply orb_true_iff. left. apply orb_true_iff. right.
    apply andb_true_iff. split; apply Z.leb_le; lia.
Qed.

Lemma escape_octets_escaped bs :
  Forall isOctet bs -> Forall isEscaped (flat_map escape_octet bs).
Proof.
  induction 1 as [|b bs Hb _ IH]; [constructor|].
  unfold isOctet in Hb. cbn [flat_map escape_octet app].
  constructor; [now right|].
  constructor; [left; apply hexDigit_unescaped; div_mod_lia|].
  constructor; [left; apply hexDigit_unescaped; div_mod_lia | exact IH].
Qed.

Lemma encode_escaped s :
  well_formed s = true ->
  forall e, encodeURIComponent s = Ok e -> Forall isEscaped e.
Proof.
  revert s.
  apply (well_formed_ind
           (fun s => forall e, encodeURIComponent s = Ok e -> Forall isEscaped e)).
  - intros e [= <-]. constructor.
  - intros c s Hu Hs _ IH e.
    apply orb_false_iff in Hs. destruct Hs as [Hl Ht].
    cbn [encodeURIComponent]. rewrite Hl, Ht.
    destruct (encodeURIComponent s) as [e'|]; cbn [bind];
      [|destruct (uriUnescaped c); discriminate].
    specialize (IH e' eq_refl).
    destruct (uriUnescaped c) eqn:Hun; intros [= <-].
    + constructor; [now left | exact IH].
    + apply Forall_app. split; [|exact IH].
      apply escape_octets_escaped, utf8_octets_range.
      unfold isScalar, isUnit, isLeadingSurrogate, isTrailingSurrogate in *.
      bool_hyps; lia.
  - intros c d s Hl Ht _ IH e.
    assert (uriUnescaped c = false) as Hun.
    { destruct (uriUnescaped c) eqn:Hun; [|reflexivity].
      apply unescaped_not_surrogate in Hun.
      unfold isSurrogate in Hun. rewrite Hl in Hun. discriminate. }
    cbn [encodeURIComponent]. rewrite Hun, Hl, Ht.
    destruct (encodeURIComponent s) as [e'|]; cbn [bind]; [|discriminate].
    specialize (IH e' eq_refl).
    intros [= <-]. apply Forall_app. split; [|exact IH].
    apply escape_octets_escaped, utf8_octets_range.
    now apply surrogate_pair_scalar.
Qed.

(** X9.  The [url] parameter of a rewritten line is made of unreserved
    units and percent-escapes only: whatever the segment reference holds
    (its own query string, a fragment, spaces), the parameter has none of
    the delimiters [& = # ? / +] and no space. *)
Theorem link_parameter_is_escaped
  (req : request) (baseUrl line o : jsstring) :
  rewrite_callback req baseUrl line = Ok o ->
  well_formed baseUrl = true ->
  well_formed line = true ->
  exists e,
    o = origin req ++ lit "/ts-proxy?url=" ++ e /\
    (forall c, In c e -> uriUnescaped c = true \/ c = 37) /\
    (forall c, In c uriDelimiters -> ~ In c e).
Proof.
  intros H Hb Hl.
  destruct (rewrite_callback_link _ _ _ _ H) as (_ & e & He & ->).
  exists e. split; [reflexivity|].
  assert (Forall isEscaped e) as Hesc.
  { apply (encode_escaped (resolve baseUrl line)); [|exact He].
    now apply well_formed_resolve. }
  rewrite Forall_forall in Hesc. split; [exact Hesc|].
  intros c Hc Hin. specialize (Hesc c Hin).
  unfold uriDelimiters in Hc. simpl in Hc.
  repeat (destruct Hc as [<-|Hc]; [destruct Hesc; discriminate|]).
  exact Hc.
Qed.

Lemma link_parameter_is_escaped_witness :
  rewrite_callback sample_request (lit "http://cdn.example/a/")
    (lit "seg 0.ts?token=a&b=c#t")
  = Ok (lit "http://relay.example/ts-proxy?url=http%3A%2F%2Fcdn.example%2Fa%2Fseg%200.ts%3Ftoken%3Da%26b%3Dc%23t")
  /\ exists e,
       lit "http://relay.example/ts-proxy?url=http%3A%2F%2Fcdn.example%2Fa%2Fseg%200.ts%3Ftoken%3Da%26b%3Dc%23t"
       = origin sample_request ++ lit "/ts-proxy?url=" ++ e /\
       ~ In 38 e.
Proof.
  split; [reflexivity|].
  destruct (link_parameter_is_escaped sample_request (lit "http://cdn.example/a/")
              (lit "seg 0.ts?token=a&b=c#t") _ eq_refl eq_refl eq_refl)
    as (e & He & _ & Hd).
  exists e. split; [exact He|]. apply Hd. simpl. tauto.
Defined.

(** ** Decoding the [url] parameter *)

Lemma Decode_plain s :
  ~ In 37 s -> forall f, (List.length s <= f)%nat -> Decode f s = Ok s.
Proof.
  induction s as [|c s IH]; intros Hn f Hf; [now destruct f|].
  destruct f as [|f]; [simpl in Hf; lia|].
  cbn [Decode].
  destruct (Z.eqb_spec c 37) as [->|_]; [exfalso; apply Hn; now left|].
  rewrite IH; [reflexivity | | simpl in Hf; lia].
  intros H. apply Hn. now right.
Qed.

Lemma not_In_forallb x s :
  forallb (fun c => negb (c =? x)) s = true -> ~ In x s.
Proof.
  rewrite forallb_forall. intros H Hin. specialize (H x Hin).
  now rewrite Z.eqb_refl in H.
Qed.

(** X10.  A [url] parameter without a [%] is fetched as it is, by either
    handler. *)
Theorem plain_url_fetched_verbatim
  (JSON_parse : jsstring -> completion jsvalue) (req : request) (u : jsstring) :
  query_url req = Some u ->
  u <> [] ->
  ~ In 37 u ->
  (exists opts k, m3u8_proxy JSON_parse req = Fetch u opts k) /\
  (exists opts k, ts_proxy JSON_parse req = Fetch u opts k).
Proof.
  intros Hu Hne Hp.
  assert (decodeURIComponent u = Ok u) as Hd
    by (unfold decodeURIComponent; now apply Decode_plain).
  unfold m3u8_proxy, ts_proxy. rewrite Hu. cbn [stringOr].
  destruct u; [now destruct Hne|]. cbn [truthy negb]. rewrite Hd.
  split; eexists; eexists; reflexivity.
Qed.

Lemma plain_url_fetched_verbatim_witness :
  exists opts k,
    ts_proxy sample_parse
      (with_url (Some (lit "http://cdn.example/a/seg0.ts")) sample_request)
    = Fetch (lit "http://cdn.example/a/seg0.ts") opts k.
Proof.
  apply (plain_url_fetched_verbatim sample_parse
           (with_url (Some (lit "http://cdn.example/a/seg0.ts")) sample_request)
           (lit "http://cdn.example/a/seg0.ts") eq_refl).
  - discriminate.
  - now apply not_In_forallb.
Defined.

(** ** White space around a reference *)

Lemma trimStart_skip ws s :
  Forall (fun c => isTrimmable c = true) ws -> trimStart (ws ++ s) = trimStart s.
Proof.
  induction 1 as [|c ws Hc _ IH]; [reflexivity|].
  simpl. now rewrite Hc.
Qed.

Lemma trimEnd_skip s ws :
  Forall (fun c => isTrimmable c = true) ws -> trimEnd (s ++ ws) = trimEnd s.
Proof.
  intros H. unfold trimEnd. rewrite rev_app_distr.
  now rewrite trimStart_skip by now apply Forall_rev.
Qed.

Lemma trimStart_app s t :
  trimStart s <> [] -> trimStart (s ++ t) = trimStart s ++ t.
Proof.
  induction s as [|c s IH]; simpl; [now intros []|].
  destruct (isTrimmable c); [exact IH | reflexivity].
Qed.

Lemma trimStart_empty s :
  trimStart s = [] -> Forall (fun c => isTrimmable c = true) s.
Proof.
  induction s as [|c s IH]; simpl; [constructor|].
  destruct (isTrimmable c) eqn:E; [|discriminate].
  intros H. constructor; auto.
Qed.

Lemma trim_padding ws s ws' :
  Forall (fun c => isTrimmable c = true) ws ->
  Forall (fun c => isTrimmable c = true) ws' ->
  trim (ws ++ s ++ ws') = trim s.
Proof.
  intros Hws Hws'. unfold trim. rewrite trimStart_skip by exact Hws.
  destruct (trimStart s) as [|c t] eqn:E.
  - apply trimStart_empty in E.
    rewrite <- (app_nil_r (s ++ ws')).
    rewrite trimStart_skip by (apply Forall_app; now split).
    reflexivity.
  - rewrite trimStart_app by (rewrite E; discriminate).
    rewrite E. now apply trimEnd_skip.
Qed.

(** X12.  Spaces, tabs and the other units [trim] strips, before and after
    the reference on a segment line, do not reach the link: the replacer
    returns for the padded line what it returns for the bare one. *)
Theorem surrounding_whitespace_ignored
  (req : request) (baseUrl ws line ws' : jsstring) :
  Forall (fun c => isTrimmable c = true) ws ->
  Forall (fun c => isTrimmable c = true) ws' ->
  trim (ws ++ line ++ ws') = trim line /\
  rewrite_callback req baseUrl (ws ++ line ++ ws')
  = rewrite_callback req baseUrl line.
Proof.
  intros Hws Hws'.
  pose proof (trim_padding ws line ws' Hws Hws') as Ht.
  split; [exact Ht|].
  unfold rewrite_callback, resolve. now rewrite Ht.
Qed.

Lemma surrounding_whitespace_ignored_witness :
  rewrite_callback sample_request (lit "http://cdn.example/a/")
    ([9; 32] ++ lit "seg0.ts" ++ [32; 32])
  = Ok (lit "http://relay.example/ts-proxy?url=http%3A%2F%2Fcdn.example%2Fa%2Fseg0.ts").
Proof.
  rewrite (proj2 (surrounding_whitespace_ignored sample_request
                    (lit "http://cdn.example/a/") [9; 32] (lit "seg0.ts") [32; 32]
                    ltac:(repeat constructor) ltac:(repeat constructor))).
  reflexivity.
Defined.

(** ** The length of a segment *)

(** X13.  On a 2xx upstream answer [/ts-proxy] gives [res.set] the
    upstream [Content-Length] under [Content-Length]; when the upstream
    has none, the value it gives is [null], which is stored as the text
    [null]. *)
Theorem segment_content_length
  (JSON_parse : jsstring -> completion jsvalue)
  (req : request) (url : jsstring) (opts : fetch_options)
  (k : fetched -> response) (up : upstream) :
  ts_proxy JSON_parse req = Fetch url opts k ->
  up_ok up = true ->
  get_field (fields (k (Resolved up))) (lit "Content-Length")
  = Some (match up_header up (lit "content-length") with
          | Some v => v
          | None => lit "null"
          end).
Proof.
  intros H Hok.
  apply ts_proxy_fetches in H. destruct H as (_ & _ & _ & ->).
  unfold segment_after_fetch, segment_fields. cbn [await bind].
  rewrite Hok. cbn [negb catch_all fields].
  destruct (truthy (up_header up (lit "content-range")));
    destruct (up_header up (lit "content-length")); reflexivity.
Qed.

Lemma segment_content_length_witness :
  get_field
    (fields
       (respond_with (ts_proxy sample_parse sample_request)
          (Resolved (upstream_of 200 (lit "OK")
                       (one_header (lit "content-length") (lit "5000"))
                       (lit "octets")))))
    (lit "Content-Length")
  = Some (lit "5000").
Proof.
  exact (segment_content_length sample_parse sample_request _ _ _
           (upstream_of 200 (lit "OK")
              (one_header (lit "content-length") (lit "5000")) (lit "octets"))
           eq_refl eq_refl).
Defined.

(** ** The rewrite, line by line *)

Lemma terminators_plain_app l t s :
  plain_line l -> isLineTerminator t = true ->
  terminators (l ++ t :: s) = t :: terminators s.
Proof.
  intros Hl Ht. pose proof (terminators_plain l Hl) as Hnone.
  unfold terminators in *. rewrite filter_app, Hnone. simpl. now rewrite Ht.
Qed.

(** X14.  The rewrite works line by line and keeps every line terminator
    where it is: the rewrite of a line, a terminator and the rest is the
    replacement of the line (the replacer's result if the pattern matches,
    the line otherwise), the terminator, and the rewrite of the rest, in
    that order of evaluation; the rewrite of a single line is its
    replacement. *)
Theorem rewrite_manifest_by_line
  (req : request) (baseUrl l rest : jsstring) (t : Z) :
  plain_line l ->
  isLineTerminator t = true ->
  rewrite_manifest req baseUrl l
  = replace_line (rewrite_callback req baseUrl) l /\
  rewrite_manifest req baseUrl (l ++ t :: rest)
  = (o <- replace_line (rewrite_callback req baseUrl) l;;
     r <- rewrite_manifest req baseUrl rest;;
     Ok (o ++ t :: r)).
Proof.
  intros Hl Ht. unfold rewrite_manifest, replace_segments. split.
  - rewrite (lines_plain_only l Hl), (terminators_plain l Hl). cbn [mapM].
    destruct (replace_line _ l); reflexivity.
  - rewrite (lines_plain_app l t rest Hl Ht),
      (terminators_plain_app l t rest Hl Ht).
    cbn [mapM].
    destruct (replace_line _ l) as [o|e]; cbn [bind]; [|reflexivity].
    destruct (mapM _ (lines rest)) as [outs|e] eqn:E; cbn [bind]; [|reflexivity].
    pose proof (lines_nonempty rest) as Hne.
    apply mapM_Forall2 in E. apply Forall2_length in E.
    destruct outs as [|o' outs];
      [destruct (lines rest); [now destruct Hne | discriminate]|].
    reflexivity.
Qed.

Lemma rewrite_manifest_by_line_witness :
  rewrite_manifest sample_request (lit "http://cdn.example/a/")
    (lit "seg0.ts" ++ [13; 10] ++ lit "#EXT-X-ENDLIST")
  = Ok (lit "http://relay.example/ts-proxy?url=http%3A%2F%2Fcdn.example%2Fa%2Fseg0.ts"
        ++ [13; 10] ++ lit "#EXT-X-ENDLIST").
Proof.
  assert (plain_line (lit "seg0.ts")) as Hl.
  { apply Forall_forall. intros c Hc.
    assert (forallb (fun c => negb (isLineTerminator c)) (lit "seg0.ts") = true)
      as H by reflexivity.
    rewrite forallb_forall in H. specialize (H c Hc).
    now apply negb_true_iff in H. }
  refine (eq_trans
            (proj2 (rewrite_manifest_by_line sample_request
                      (lit "http://cdn.example/a/") (lit "seg0.ts")
                      ([10] ++ lit "#EXT-X-ENDLIST") 13 Hl eq_refl)) _).
  reflexivity.
Defined.

(** ** A [%] at the end of the [url] parameter *)

Lemma ParseHexOctet_percent h : ParseHexOctet h 37 = None.
Proof. unfold ParseHexOctet. now destruct (hexValue h). Qed.

Lemma continuation_keeps_end n :
  forall t bs r,
    continuation n (t ++ [37]) = Some (bs, r) -> exists r', r = r' ++ [37].
Proof.
  induction n as [|n IH]; intros t bs r; cbn [continuation].
  - intros [= _ <-]. now exists t.
  - destruct t as [|p [|h [|l t]]]; cbn [app]; try discriminate.
    + destruct (p =? 37); [|discriminate].
      now rewrite ParseHexOctet_percent.
    + destruct (p =? 37); [|discriminate].
      destruct (ParseHexOctet h l); [|discriminate].
      destruct (continuation n (t ++ [37])) as [[bs' r']|] eqn:E; [|discriminate].
      intros [= _ <-]. now apply (IH t bs').
Qed.

Lemma Decode_trailing_percent f :
  forall s, Decode f (s ++ [37]) = Throw uriMalformed.
Proof.
  induction f as [|f IH]; intros s.
  - destruct s; reflexivity.
  - destruct s as [|c s]; [reflexivity|].
    cbn [app Decode]. destruct (c =? 37); [|now rewrite IH].
    destruct s as [|h [|l s]]; cbn [app]; try reflexivity.
    + now rewrite ParseHexOctet_percent.
    + destruct (ParseHexOctet h l) as [b|]; [|reflexivity].
      cbv zeta.
      destruct (leadingOnes b =? 0)%nat; [now rewrite IH|].
      destruct ((leadingOnes b =? 1)%nat || (4 <? leadingOnes b)%nat);
        [reflexivity|].
      destruct (continuation (leadingOnes b - 1) (s ++ [37])) as [[bs r]|] eqn:E;
        [|reflexivity].
      destruct (continuation_keeps_end _ _ _ _ E) as (r' & ->).
      destruct (utf8_code_point (b :: bs)); [|reflexivity].
      now rewrite IH.
Qed.

(** X15.  A [url] parameter that ends with [%] cannot be decoded: either
    handler responds 500 with the details [URI malformed] and makes no
    fetch. *)
Theorem trailing_percent_is_500
  (JSON_parse : jsstring -> completion jsvalue) (req : request) (u : jsstring) :
  query_url req = Some (u ++ [37]) ->
  m3u8_proxy JSON_parse req
  = Respond (json_response 500 [(lit "error", lit "Failed to fetch M3U8");
                                (lit "details", lit "URI malformed")]) /\
  ts_proxy JSON_parse req
  = Respond (json_response 500 [(lit "error", lit "Failed to fetch TS file");
                                (lit "details", lit "URI malformed")]).
Proof.
  intros H. unfold m3u8_proxy, ts_proxy. rewrite H. cbn [stringOr].
  assert (truthy (Some (u ++ [37])) = true) as -> by now destruct u.
  cbn [negb]. unfold decodeURIComponent. rewrite Decode_trailing_percent.
  split; reflexivity.
Qed.

Lemma trailing_percent_is_500_witness :
  m3u8_proxy sample_parse
    (with_url (Some (lit "http://cdn.example/sale-50%")) sample_request)
  = Respond (json_response 500 [(lit "error", lit "Failed to fetch M3U8");
                                (lit "details", lit "URI malformed")]).
Proof.
  exact (proj1 (trailing_percent_is_500 sample_parse
                  (with_url (Some (lit "http://cdn.example/sale-50%")) sample_request)
                  (lit "http://cdn.example/sale-50") eq_refl)).
Defined.
